(** * Content-safety moderation pipeline of [score.py]

    A shallow embedding of the moderation and request-normalisation code of
    the foundation-model-inference scoring script
    ([context/src/score.py]): the sentence chunker [CsChunkingUtils], the
    severity analyzer [analyze_text], the structural redactor [iterate], the
    two moderation gates, the Llama-2 chat formatting and the request
    normaliser [get_request_data].

    Python [str] values are modelled by [string] (code points below 256),
    Python integers by [Z], raised exceptions by the [Err] case of [result]. *)

From Stdlib Require Import ZArith List String Ascii Bool Lia DecimalString Permutation.
Import ListNotations.

Set Warnings "-register-all".

Local Open Scope list_scope.
Local Open Scope string_scope.
Local Open Scope Z_scope.

(** ** Exceptions and fallible computations *)

(** Dictionary keys and DataFrame labels: integers or strings. *)
Inductive key : Type :=
| KInt (n : Z)
| KStr (s : string).

(** The exception classes that the modelled code raises or lets escape. *)
Inductive exn : Type :=
| Exception (msg : string)
| ValueError (msg : string)
| KeyError (k : key)
| TypeError (msg : string)
| AttributeError (msg : string)
| ExternalError (msg : string).

Inductive result (A : Type) : Type :=
| Ok (a : A)
| Err (e : exn).

Arguments Ok {A} a.
Arguments Err {A} e.

Definition rbind {A B : Type} (r : result A) (k : A -> result B) : result B :=
  match r with
  | Ok a => k a
  | Err e => Err e
  end.

Declare Scope result_scope.
Delimit Scope result_scope with result.
Notation "x <- r ;; k" := (rbind r (fun x => k))
  (at level 100, r at next level, right associativity) : result_scope.
Notation "' p <- r ;; k" := (rbind r (fun p => k))
  (at level 100, p pattern, r at next level, right associativity) : result_scope.

(** ** Python string primitives *)

Definition quote : string := String "034"%char EmptyString.
Definition apostrophe : string := String "039"%char EmptyString.
Definition newline : string := String "010"%char EmptyString.

(** [len(s)] *)
Definition len (s : string) : Z := Z.of_nat (String.length s).

(** [s[n:]] for a natural [n]. *)
Fixpoint string_drop (n : nat) (s : string) : string :=
  match n, s with
  | O, _ => s
  | S n', String _ s' => string_drop n' s'
  | S _, EmptyString => EmptyString
  end.

(** Slice bounds are normalised as CPython does: a negative bound counts
    from the end, and every bound is clamped to [0, len]. *)
Definition slice_bound (s : string) (k : Z) : Z :=
  if k <? 0 then Z.max 0 (k + len s) else Z.min k (len s).

(** [s[i:j]] *)
Definition py_slice (s : string) (i j : Z) : string :=
  let a := slice_bound s i in
  let b := slice_bound s j in
  substring (Z.to_nat a) (Z.to_nat (b - a)) s.

(** [range(start, stop, step)] as a list; [range] rejects a zero step. *)
Fixpoint range_up (fuel : nat) (i stop step : Z) : list Z :=
  match fuel with
  | O => []
  | S fuel' => if i <? stop then i :: range_up fuel' (i + step) stop step else []
  end.

Fixpoint range_down (fuel : nat) (i stop step : Z) : list Z :=
  match fuel with
  | O => []
  | S fuel' => if stop <? i then i :: range_down fuel' (i + step) stop step else []
  end.

Definition py_range (start stop step : Z) : result (list Z) :=
  if step =? 0 then Err (ValueError "range() arg 3 must not be zero")
  else if 0 <? step then Ok (range_up (Z.to_nat (stop - start)) start stop step)
  else Ok (range_down (Z.to_nat (start - stop)) start stop step).

(** [s.split(sep)] for a string separator: the pieces between the leftmost
    non-overlapping occurrences of [sep].  [skip] counts the characters of
    an occurrence that are still to be passed over. *)
Fixpoint split_from (sep : string) (skip : nat) (s : string) : list string :=
  match s with
  | EmptyString => [EmptyString]
  | String c s' =>
      match skip with
      | S k => split_from sep k s'
      | O =>
          if prefix sep s then
            EmptyString :: split_from sep (String.length sep - 1) s'
          else
            match split_from sep O s' with
            | piece :: pieces => String c piece :: pieces
            | [] => [String c EmptyString]
            end
      end
  end.

Definition py_split (s sep : string) : result (list string) :=
  match sep with
  | EmptyString => Err (ValueError "empty separator")
  | _ => Ok (split_from sep O s)
  end.

(** [sep.join(pieces)] *)
Fixpoint py_join (sep : string) (pieces : list string) : string :=
  match pieces with
  | [] => EmptyString
  | [x] => x
  | x :: xs => x ++ sep ++ py_join sep xs
  end.

(** Truthiness of a string: [bool(s)]. *)
Definition nonempty (s : string) : bool :=
  match s with
  | EmptyString => false
  | String _ _ => true
  end.

(** ** Chunker: [CsChunkingUtils] *)

Record CsChunkingUtils : Type := {
  delimiter : string;
  chunking_n : Z
}.

(** [chunkstring]: the slices [string[0 + i : length + i]] for [i] in
    [range(0, len(string), length)]. *)
Definition chunkstring (string : string) (length : Z) : result (list String.string) :=
  (idxs <- py_range 0 (len string) length ;;
   Ok (map (fun i => py_slice string (0 + i) (length + i)) idxs))%result.

(** The [for i in split] loop of [split_by], threading [ret] and [buffer]. *)
Fixpoint split_by_loop (max_n : Z) (split ret : list string) (buffer : string)
  : result (list string * string) :=
  match split with
  | [] => Ok (ret, buffer)
  | i :: split' =>
      if max_n <? len i then
        (chunks <- chunkstring i max_n ;;
         split_by_loop max_n split' ((ret ++ [buffer]) ++ chunks)%list EmptyString)%result
      else if len buffer + len i <=? max_n then
        split_by_loop max_n split' ret (buffer ++ i)
      else
        split_by_loop max_n split' (ret ++ [buffer])%list i
  end.

(** The list comprehension [[e + delimiter for e in input.split(delimiter) if e]]. *)
Definition delimited_pieces (delim : string) (pieces : list string) : list string :=
  map (fun e => e ++ delim) (filter nonempty pieces).

Definition split_by (self : CsChunkingUtils) (input : string) : result (list string) :=
  (let max_n := chunking_n self in
   pieces <- py_split input (delimiter self) ;;
   let split := delimited_pieces (delimiter self) pieces in
   '(ret, buffer) <- split_by_loop max_n split [] EmptyString ;;
   Ok (if 0 <? len buffer then (ret ++ [buffer])%list else ret))%result.

(** [CsChunkingUtils(chunking_n=1000, delimiter=".")] *)
Definition default_chunking_utils : CsChunkingUtils :=
  {| delimiter := "."; chunking_n := 1000 |}.


(** ** Python objects traversed by the redactor *)

(** Scalars other than strings are never inspected by the pipeline; a float
    is kept as an opaque mantissa/exponent pair.  A dictionary is its entry
    list in insertion order (keys pairwise distinct); a numpy array is the
    list of its items along the first axis; a DataFrame carries its row
    labels, its column labels and its rows of cells.  Values are trees, as
    the JSON-able payloads of the script are: no object occurs twice, so
    the in-place assignments of [iterate] are rendered by returning the
    updated value. *)
Inductive value : Type :=
| VNone
| VBool (b : bool)
| VInt (n : Z)
| VFloat (mantissa exponent : Z)
| VStr (s : string)
| VList (items : list value)
| VDict (entries : list (key * value))
| VNdarray (items : list value)
| VDataFrame (index columns : list key) (data : list (list value)).

Definition key_eqb (a b : key) : bool :=
  match a, b with
  | KInt n, KInt m => n =? m
  | KStr s, KStr t => String.eqb s t
  | _, _ => false
  end.

(** Position of the first label equal to [k]. *)
Fixpoint position (k : key) (labels : list key) : option nat :=
  match labels with
  | [] => None
  | l :: labels' =>
      if key_eqb k l then Some O
      else option_map S (position k labels')
  end.

(** Replace the element at position [n], leaving a shorter list unchanged. *)
Fixpoint list_set {A : Type} (l : list A) (n : nat) (x : A) : list A :=
  match l, n with
  | [], _ => []
  | _ :: l', O => x :: l'
  | y :: l', S n' => y :: list_set l' n' x
  end.

Definition grid_get {A : Type} (g : list (list A)) (r c : nat) : option A :=
  match nth_error g r with
  | Some row => nth_error row c
  | None => None
  end.

Definition grid_set {A : Type} (g : list (list A)) (r c : nat) (x : A) : list (list A) :=
  match nth_error g r with
  | Some row => list_set g r (list_set row c x)
  | None => g
  end.

(** ** The classification service *)

(** [response.X_result.severity] for the four categories; [None] when the
    category result is absent. *)
Record AnalyzeTextResult : Type := {
  hate_result : option Z;
  self_harm_result : option Z;
  sexual_result : option Z;
  violence_result : option Z
}.

(** The texts submitted to the service so far, oldest first. *)
Definition call_log : Type := list string.

(** [client.analyze_text(AnalyzeTextOptions(text=t))]: the service answers
    with a category result or raises, and its answer may depend on the
    requests it has seen before. *)
Definition ContentSafetyClient : Type :=
  call_log -> string -> result AnalyzeTextResult.

(** Computations that may call the service: they thread the log of calls and
    stop at the first exception. *)
Definition M (A : Type) : Type := call_log -> result A * call_log.

Definition mret {A : Type} (a : A) : M A := fun log => (Ok a, log).

Definition mbind {A B : Type} (m : M A) (k : A -> M B) : M B :=
  fun log =>
    match m log with
    | (Ok a, log') => k a log'
    | (Err e, log') => (Err e, log')
    end.

Definition lift {A : Type} (r : result A) : M A := fun log => (r, log).

Declare Scope aacs_scope.
Delimit Scope aacs_scope with aacs.
Notation "x <- m ;; k" := (mbind m (fun x => k))
  (at level 100, m at next level, right associativity) : aacs_scope.
Notation "' p <- m ;; k" := (mbind m (fun p => k))
  (at level 100, p pattern, m at next level, right associativity) : aacs_scope.

(** Module-level state of the script that the pipeline reads. *)
Record Globals : Type := {
  g_aacs_threshold : Z;
  g_aacs_client : option ContentSafetyClient;
  task_type : string
}.

(** [g_aacs_client.analyze_text(...)]; the attribute access fails on [None]. *)
Definition client_analyze_text (client : option ContentSafetyClient) (text : string)
  : M AnalyzeTextResult :=
  match client with
  | Some c => fun log => (c log text, (log ++ [text])%list)
  | None =>
      lift (Err (AttributeError
                   "'NoneType' object has no attribute 'analyze_text'"))
  end.

(** ** Severity analyzer *)

Definition max_with (severity : Z) (category : option Z) : Z :=
  match category with
  | Some s => Z.max severity s
  | None => severity
  end.

Definition analyze_response (response : AnalyzeTextResult) : Z :=
  let severity := 0 in
  let severity := max_with severity (hate_result response) in
  let severity := max_with severity (self_harm_result response) in
  let severity := max_with severity (sexual_result response) in
  let severity := max_with severity (violence_result response) in
  severity.

(** [max(xs)] of a list: raises on the empty list. *)
Definition py_max (xs : list Z) : result Z :=
  match xs with
  | [] => Err (ValueError "max() arg is an empty sequence")
  | x :: xs' => Ok (fold_left Z.max xs' x)
  end.

(** [str.isspace] on one character, for code points below 256. *)
Definition isspace (c : ascii) : bool :=
  let n := nat_of_ascii c in
  ((9 <=? n) && (n <=? 13) || (28 <=? n) && (n <=? 32)
   || (n =? 133) || (n =? 160))%nat.

Fixpoint lstrip (s : string) : string :=
  match s with
  | EmptyString => EmptyString
  | String c s' => if isspace c then lstrip s' else s
  end.

Fixpoint rstrip (s : string) : string :=
  match s with
  | EmptyString => EmptyString
  | String c s' =>
      match rstrip s' with
      | EmptyString => if isspace c then EmptyString else String c EmptyString
      | r => String c r
      end
  end.

(** [s.strip()] *)
Definition py_strip (s : string) : string := rstrip (lstrip s).

(** The list comprehension of [analyze_text]: one service call per chunk. *)
Fixpoint analyze_chunks (client : option ContentSafetyClient) (split_text : list string)
  : M (list Z) :=
  match split_text with
  | [] => mret []
  | i :: split_text' =>
      (response <- client_analyze_text client i ;;
       result <- analyze_chunks client split_text' ;;
       mret (analyze_response response :: result))%aacs
  end.

Definition analyze_text (G : Globals) (text : string) : M Z :=
  if negb (nonempty text) || negb (nonempty (py_strip text)) then mret 0
  else
    (let chunking_utils := default_chunking_utils in
     split_text <- lift (split_by chunking_utils text) ;;
     result <- analyze_chunks (g_aacs_client G) split_text ;;
     severity <- lift (py_max result) ;;
     mret severity)%aacs.

(** ** Structural redactor *)

Section Loops.
Variable iterate : value -> M (value * Z).

(** [for idx in range(len(obj)): obj[idx], value_severity = iterate(obj[idx])]:
    every position is read once, before it is overwritten. *)
Fixpoint iterate_items (items : list value) (severity : Z) : M (list value * Z) :=
  match items with
  | [] => mret ([], severity)
  | v :: items' =>
      ('(v', value_severity) <- iterate v ;;
       '(rest, severity') <- iterate_items items' (Z.max severity value_severity) ;;
       mret (v' :: rest, severity'))%aacs
  end.

(** [for key, value in obj.items(): obj[key], value_severity = iterate(value)] *)
Fixpoint iterate_entries (entries : list (key * value)) (severity : Z)
  : M (list (key * value) * Z) :=
  match entries with
  | [] => mret ([], severity)
  | (k, v) :: entries' =>
      ('(v', value_severity) <- iterate v ;;
       '(rest, severity') <- iterate_entries entries' (Z.max severity value_severity) ;;
       mret ((k, v') :: rest, severity'))%aacs
  end.
End Loops.

(** One step [obj.at[i, j], value_severity = iterate(obj.at[i, j])] of the
    DataFrame loop.  [.at] addresses a cell by labels: the column label [j]
    is resolved first, then the row label [i], and a missing label raises
    [KeyError].  [cells] holds, for every stored cell, the suspended call of
    [iterate] on it; distinct labels resolve to distinct positions, so the
    cell read at a step is always one that no earlier step has overwritten. *)
Definition iterate_cell (index columns : list key) (cells : list (list (M (value * Z))))
  (i j : nat) (acc : list (list value) * Z) : M (list (list value) * Z) :=
  let '(data, severity) := acc in
  match position (KInt (Z.of_nat j)) columns with
  | None => lift (Err (KeyError (KInt (Z.of_nat j))))
  | Some c =>
      match position (KInt (Z.of_nat i)) index with
      | None => lift (Err (KeyError (KInt (Z.of_nat i))))
      | Some r =>
          match grid_get cells r c with
          | None => lift (Err (KeyError (KInt (Z.of_nat i))))
          | Some cell =>
              ('(v', value_severity) <- cell ;;
               mret (grid_set data r c v', Z.max severity value_severity))%aacs
          end
      end
  end.

(** A [for] loop over a list of indices, threading an accumulator. *)
Fixpoint for_each {A S : Type} (xs : list A) (body : A -> S -> M S) (acc : S) : M S :=
  match xs with
  | [] => mret acc
  | x :: xs' => (acc' <- body x acc ;; for_each xs' body acc')%aacs
  end.

Definition range_nat (n : nat) : list nat := seq O n.

Fixpoint iterate (G : Globals) (obj : value) {struct obj} : M (value * Z) :=
  match obj with
  | VDict entries =>
      ('(entries', severity) <- iterate_entries (iterate G) entries 0 ;;
       mret (VDict entries', severity))%aacs
  | VList items =>
      ('(items', severity) <- iterate_items (iterate G) items 0 ;;
       mret (VList items', severity))%aacs
  | VNdarray items =>
      ('(items', severity) <- iterate_items (iterate G) items 0 ;;
       mret (VNdarray items', severity))%aacs
  | VDataFrame index columns data =>
      (let cells := map (map (iterate G)) data in
       '(data', severity) <-
         for_each (range_nat (List.length index))
           (fun i => for_each (range_nat (List.length columns))
                       (iterate_cell index columns cells i))
           (data, 0) ;;
       mret (VDataFrame index columns data', severity))%aacs
  | VStr s =>
      (severity <- analyze_text G s ;;
       if g_aacs_threshold G <? severity then mret (VStr EmptyString, severity)
       else mret (obj, severity))%aacs
  | _ => mret (obj, 0)
  end.

(** ** Moderation gates *)

(** [ndarray.tolist()]: nested arrays become nested lists. *)
Fixpoint tolist (v : value) : value :=
  match v with
  | VNdarray items => VList (map tolist items)
  | _ => v
  end.

(** mlflow's [_get_jsonable_obj(data, pandas_orient="records")]: an array
    becomes [data.tolist()], a DataFrame becomes its list of row records
    [data.to_dict(orient="records")], anything else is returned as it is. *)
Definition _get_jsonable_obj (data : value) : value :=
  match data with
  | VNdarray _ => tolist data
  | VDataFrame _ columns rows => VList (map (fun row => VDict (combine columns row)) rows)
  | _ => data
  end.

Definition get_safe_response (G : Globals) (result : value) : M value :=
  let jsonable_result := _get_jsonable_obj result in
  match g_aacs_client G with
  | None => mret jsonable_result
  | Some _ =>
      ('(result, severity) <- iterate G jsonable_result ;;
       mret result)%aacs
  end.

Definition get_safe_input (G : Globals) (input_data : value) : M (value * Z) :=
  match g_aacs_client G with
  | None => mret (input_data, 0)
  | Some _ =>
      ('(result, severity) <- iterate G input_data ;;
       mret (result, severity))%aacs
  end.

(** ** Request bodies *)

(** What [json.loads] yields.  A float keeps the text of its literal. *)
Inductive json : Type :=
| JNull
| JBool (b : bool)
| JInt (n : Z)
| JFloat (literal : string)
| JStr (s : string)
| JList (items : list json)
| JDict (entries : list (string * json)).

(** [type(v).__name__] *)
Definition type_name (v : json) : string :=
  match v with
  | JNull => "NoneType"
  | JBool _ => "bool"
  | JInt _ => "int"
  | JFloat _ => "float"
  | JStr _ => "str"
  | JList _ => "list"
  | JDict _ => "dict"
  end.

Fixpoint lookup (k : string) (entries : list (string * json)) : option json :=
  match entries with
  | [] => None
  | (k', v) :: entries' => if String.eqb k k' then Some v else lookup k entries'
  end.

Definition no_attribute (v : json) (attr : string) : exn :=
  AttributeError
    (apostrophe ++ type_name v ++ "' object has no attribute '" ++ attr ++ apostrophe).

(** [obj[k]] for a string [k]. *)
Definition getitem (obj : json) (k : string) : result json :=
  match obj with
  | JDict entries =>
      match lookup k entries with
      | Some v => Ok v
      | None => Err (KeyError (KStr k))
      end
  | JList _ => Err (TypeError "list indices must be integers or slices, not str")
  | JStr _ => Err (TypeError "string indices must be integers")
  | _ => Err (TypeError (apostrophe ++ type_name obj ++ "' object is not subscriptable"))
  end.

(** [obj.get(k, default)] *)
Definition py_get (obj : json) (k : string) (default : json) : result json :=
  match obj with
  | JDict entries =>
      match lookup k entries with
      | Some v => Ok v
      | None => Ok default
      end
  | _ => Err (no_attribute obj "get")
  end.

(** [sub in s] for two strings. *)
Fixpoint contains (sub s : string) : bool :=
  prefix sub s ||
  match s with
  | EmptyString => false
  | String _ s' => contains sub s'
  end.

Definition json_is_str (s : string) (v : json) : bool :=
  match v with
  | JStr t => String.eqb t s
  | _ => false
  end.

(** [tag in content]: substring test on a string, membership on a list,
    key membership on a dictionary, [TypeError] on the other scalars. *)
Definition py_in (tag : string) (content : json) : result bool :=
  match content with
  | JStr s => Ok (contains tag s)
  | JList items => Ok (existsb (json_is_str tag) items)
  | JDict entries => Ok (existsb (fun kv => String.eqb (fst kv) tag) entries)
  | _ => Err (TypeError ("argument of type '" ++ type_name content ++ "' is not iterable"))
  end.

(** [v.strip()] *)
Definition strip_value (v : json) : result json :=
  match v with
  | JStr s => Ok (JStr (py_strip s))
  | _ => Err (no_attribute v "strip")
  end.

(** [results = [f(x) for x in xs]], stopping at the first exception. *)
Fixpoint traverse {A B : Type} (f : A -> result B) (xs : list A) : result (list B) :=
  match xs with
  | [] => Ok []
  | x :: xs' => (y <- f x ;; ys <- traverse f xs' ;; Ok (y :: ys))%result
  end.

(** ** Chat formatting *)

Definition SPECIAL_TAGS : list string := ["[INST]"; "[/INST]"; "<<SYS>>"; "<</SYS>>"].

Definition UNSAFE_ERROR : string :=
  "Error: special tags are not allowed as part of the prompt.".

(** Local variables of [process_dialog]; Python's [None] is [JNull]. *)
Record dialog_state : Type := {
  system_prompt : json;
  user_assistant_messages : list (json * json);
  user_message : json;
  last_user_message : json
}.

Definition is_none (v : json) : bool :=
  match v with
  | JNull => true
  | _ => false
  end.

Section Formatting.
(** [str(v)] of a list or dictionary inside an f-string is left to the
    interpreter. *)
Variable py_repr : json -> string.

(** [f"{v}"] *)
Definition format_value (v : json) : string :=
  match v with
  | JStr s => s
  | JNull => "None"
  | _ => py_repr v
  end.

(** The body of [for i, message in enumerate(messages)]. *)
Definition process_message (n_messages : nat) (i : nat) (message : json) (st : dialog_state)
  : result dialog_state :=
  (role <- getitem message "role" ;;
   content <- getitem message "content" ;;
   if json_is_str "system" role && (i =? 0)%nat then
     Ok {| system_prompt := content;
           user_assistant_messages := user_assistant_messages st;
           user_message := user_message st;
           last_user_message := last_user_message st |}
   else if json_is_str "user" role then
     if (Z.of_nat i =? Z.of_nat n_messages - 1) then
       Ok {| system_prompt := system_prompt st;
             user_assistant_messages := user_assistant_messages st;
             user_message := user_message st;
             last_user_message := content |}
     else
       Ok {| system_prompt := system_prompt st;
             user_assistant_messages := user_assistant_messages st;
             user_message := content;
             last_user_message := last_user_message st |}
   else if json_is_str "assistant" role && negb (is_none (user_message st)) then
     Ok {| system_prompt := system_prompt st;
           user_assistant_messages :=
             (user_assistant_messages st ++ [(user_message st, content)])%list;
           user_message := JNull;
           last_user_message := last_user_message st |}
   else Ok st)%result.

Fixpoint process_messages (n_messages : nat) (i : nat) (messages : list json)
  (st : dialog_state) : result dialog_state :=
  match messages with
  | [] => Ok st
  | message :: messages' =>
      (st' <- process_message n_messages i message st ;;
       process_messages n_messages (S i) messages' st')%result
  end.

(** [[tag in msg["content"] for tag in SPECIAL_TAGS for msg in messages]] *)
Definition tag_checks (messages : list json) : result (list bool) :=
  (rows <- traverse
             (fun tag =>
                traverse (fun msg => content <- getitem msg "content" ;; py_in tag content)
                  messages)
             SPECIAL_TAGS ;;
   Ok (List.concat rows))%result.

Definition process_dialog (messages : list json) : result (json * list (json * json) * json) :=
  (checks <- tag_checks messages ;;
   let unsafe_request := existsb (fun b => b) checks in
   if unsafe_request then Err (Exception UNSAFE_ERROR)
   else
     st <- process_messages (List.length messages) O messages
             {| system_prompt := JStr EmptyString;
                user_assistant_messages := [];
                user_message := JNull;
                last_user_message := JNull |} ;;
     Ok (system_prompt st, user_assistant_messages st, last_user_message st))%result.

(** The loop [for user_input, response in chat_history] of [format_chat_conv]. *)
Fixpoint format_history (chat_history : list (json * json)) (do_strip : bool)
  (texts : list string) : result (bool * list string) :=
  match chat_history with
  | [] => Ok (do_strip, texts)
  | (user_input, response) :: chat_history' =>
      (user_input <- (if do_strip then strip_value user_input else Ok user_input) ;;
       let do_strip := true in
       response <- strip_value response ;;
       format_history chat_history' do_strip
         (texts ++ [(format_value user_input ++ " [/INST] " ++ format_value response
                     ++ " </s><s>[INST] ")%string])%list)%result
  end.

Definition format_chat_conv (message : json) (chat_history : list (json * json))
  (system_prompt : json) : result string :=
  (let texts :=
     if negb (json_is_str EmptyString system_prompt) then
       ["<s>[INST] <<SYS>>" ++ newline ++ format_value system_prompt ++ newline
        ++ "<</SYS>>" ++ newline ++ newline]
     else ["<s>[INST] "] in
   '(do_strip, texts) <- format_history chat_history false texts ;;
   message <- (if do_strip then strip_value message else Ok message) ;;
   let texts := (texts ++ [(format_value message ++ " [/INST]")%string])%list in
   Ok (py_join EmptyString texts))%result.

Definition get_processed_input_data_for_chat_completion (dialog : list json)
  : result string :=
  ('(sys_prompt, user_assistant_msgs, message) <- process_dialog dialog ;;
   chat_conv <- format_chat_conv message user_assistant_msgs sys_prompt ;;
   Ok chat_conv)%result.

(** ** Request normaliser *)

(** [str(e)]: the message of the exception; a [KeyError] prints the [repr]
    of its key. *)
Definition str_of_exn (e : exn) : string :=
  match e with
  | Exception msg | ValueError msg | TypeError msg
  | AttributeError msg | ExternalError msg => msg
  | KeyError (KStr k) => apostrophe ++ k ++ apostrophe
  | KeyError (KInt n) => DecimalString.NilZero.string_of_int (Z.to_int n)
  end.

Definition hex_digit (n : nat) : ascii :=
  ascii_of_nat (if (n <? 10)%nat then 48 + n else 87 + n).

(** One character of [json.dumps] output with [ensure_ascii=True]. *)
Definition json_escape_char (c : ascii) : string :=
  let n := nat_of_ascii c in
  if (n =? 34)%nat then "\" ++ quote
  else if (n =? 92)%nat then "\\"
  else if (n =? 10)%nat then "\n"
  else if (n =? 13)%nat then "\r"
  else if (n =? 9)%nat then "\t"
  else if (n =? 12)%nat then "\f"
  else if (n =? 8)%nat then "\b"
  else if ((32 <=? n) && (n <=? 126))%nat then String c EmptyString
  else "\u00" ++ String (hex_digit (n / 16)) (String (hex_digit (n mod 16)) EmptyString).

Fixpoint json_escape (s : string) : string :=
  match s with
  | EmptyString => EmptyString
  | String c s' => json_escape_char c ++ json_escape s'
  end.

Definition json_string (s : string) : string := quote ++ json_escape s ++ quote.

(** [json.dumps({"error": error, "exception": exception})] *)
Definition dumps_error (error exception : string) : string :=
  "{" ++ json_string "error" ++ ": " ++ json_string error ++ ", "
  ++ json_string "exception" ++ ": " ++ json_string exception ++ "}".

Definition quoted (s : string) : string := quote ++ s ++ quote.

(** The expected-schema text of the error payload. *)
Definition EXPECTED_FORMAT : string :=
  "Expected input format: " ++ newline
  ++ "{" ++ quoted "input_data" ++ ": {" ++ quoted "input_string" ++ ": "
  ++ quoted "<query>" ++ ", "
  ++ quoted "parameters" ++ ": {" ++ quoted "k1" ++ ":" ++ quoted "v1" ++ ", "
  ++ quoted "k2" ++ ":" ++ quoted "v2" ++ "}}}." ++ newline ++ " "
  ++ "<query> should be in below format:" ++ newline ++ " "
  ++ "For text-generation: [" ++ quoted "str1" ++ ", " ++ quoted "str2" ++ ", ...]"
  ++ newline
  ++ "For chat-completion: [{" ++ quoted "role" ++ ":" ++ quoted "user" ++ ", "
  ++ quoted "content" ++ ": " ++ quoted "str1" ++ "},"
  ++ "{" ++ quoted "role" ++ ": " ++ quoted "assistant" ++ ", "
  ++ quoted "content" ++ ": " ++ quoted "str2" ++ "} ....]".

Definition CHAT_COMPLETION : string := "chat-completion".
Definition TEXT_GENERATION : string := "text-generation".

Definition is_dict (v : json) : bool :=
  match v with
  | JDict _ => true
  | _ => false
  end.

Definition is_list (v : json) : bool :=
  match v with
  | JList _ => true
  | _ => false
  end.

Variable json_loads : string -> result json.

(** The [try] block of [get_request_data]. *)
Definition parse_request (G : Globals) (request_string : string) : result (json * json) :=
  (data <- json_loads request_string ;;
   inputs <- py_get data "input_data" JNull ;;
   if negb (is_dict inputs) then Err (Exception "Invalid input data")
   else
     input_data <- getitem inputs "input_string" ;;
     params <- py_get inputs "parameters" (JDict []) ;;
     if negb (is_list input_data) then Err (Exception "query is not a list")
     else if negb (is_dict params) then Err (Exception "parameters is not a dict")
     else if String.eqb (task_type G) CHAT_COMPLETION then
       match input_data with
       | JList dialog =>
           input_data <- get_processed_input_data_for_chat_completion dialog ;;
           Ok (JStr input_data, params)
       | _ => Ok (input_data, params)
       end
     else Ok (input_data, params))%result.

Definition get_request_data (G : Globals) (request_string : string) : result (json * json) :=
  match parse_request G request_string with
  | Ok r => Ok r
  | Err e => Err (Exception (dumps_error EXPECTED_FORMAT (str_of_exn e)))
  end.
End Formatting.

(** ** Generator parameters *)

(** Operations of Python dictionaries with string keys, on entry lists in
    insertion order. *)

(** [k in d] *)
Definition dict_contains (k : string) (d : list (string * json)) : bool :=
  match lookup k d with
  | Some _ => true
  | None => false
  end.

(** [d[k] = v]: an existing key keeps its place, a new key goes last. *)
Fixpoint dict_set (k : string) (v : json) (d : list (string * json))
  : list (string * json) :=
  match d with
  | [] => [(k, v)]
  | (k', v') :: d' =>
      if String.eqb k k' then (k, v) :: d' else (k', v') :: dict_set k v d'
  end.

(** [del d[k]] *)
Definition dict_del (k : string) (d : list (string * json))
  : result (list (string * json)) :=
  if dict_contains k d then
    Ok (filter (fun kv => negb (String.eqb k (fst kv))) d)
  else Err (KeyError (KStr k)).

(** [d.update(other)] *)
Definition dict_update (d other : list (string * json)) : list (string * json) :=
  fold_left (fun acc kv => dict_set (fst kv) (snd kv) acc) other d.

(** [get_generator_params]; the argument dictionary is updated in place and
    ends with the contents of the dictionary returned. *)
Definition get_generator_params (params : list (string * json))
  : result (list (string * json)) :=
  (let updated_params := [] in
   params <-
     (if dict_contains "max_gen_len" params then
        max_gen_len <- getitem (JDict params) "max_gen_len" ;;
        let params := dict_set "max_new_tokens" max_gen_len params in
        dict_del "max_gen_len" params
      else Ok params) ;;
   Ok (dict_update updated_params params))%result.

(** ** The scoring entry point *)

(** The calls made to the generation engine so far, oldest first: the
    prompts and the parameters of each. *)
Definition engine_log : Type := list (list json * list (string * json)).

(** [g_fmscorer.run(prompts, params)]: the engine answers with the
    [response] text of each inference result or raises, and its answer may
    depend on the calls it has seen before. *)
Definition FMScore : Type :=
  engine_log -> list json -> list (string * json) -> result (list string).

(** What [run] can change outside itself: the calls to the classification
    service and to the engine. *)
Record world : Type := {
  aacs_calls : call_log;
  engine_calls : engine_log
}.

(** What the [try] block of [run] can raise: the exceptions of the
    pipeline, and the [AssertionError] of its [assert]. *)
Inductive raised : Type :=
| Raised (e : exn)
| AssertionError (msg : string).

Definition str_of_raised (r : raised) : string :=
  match r with
  | Raised e => str_of_exn e
  | AssertionError msg => msg
  end.

Inductive outcome (A : Type) : Type :=
| Returned (a : A)
| Failed (r : raised).

Arguments Returned {A} a.
Arguments Failed {A} r.

Definition R (A : Type) : Type := world -> outcome A * world.

Definition run_ret {A : Type} (a : A) : R A := fun w => (Returned a, w).

Definition run_bind {A B : Type} (m : R A) (k : A -> R B) : R B :=
  fun w =>
    match m w with
    | (Returned a, w') => k a w'
    | (Failed r, w') => (Failed r, w')
    end.

Declare Scope run_scope.
Delimit Scope run_scope with run.
Notation "x <- m ;; k" := (run_bind m (fun x => k))
  (at level 100, m at next level, right associativity) : run_scope.
Notation "' p <- m ;; k" := (run_bind m (fun p => k))
  (at level 100, p pattern, m at next level, right associativity) : run_scope.

(** A computation of the moderation pipeline, run inside [run]. *)
Definition of_aacs {A : Type} (m : M A) : R A :=
  fun w =>
    match m (aacs_calls w) with
    | (Ok a, log') =>
        (Returned a, {| aacs_calls := log'; engine_calls := engine_calls w |})
    | (Err e, log') =>
        (Failed (Raised e), {| aacs_calls := log'; engine_calls := engine_calls w |})
    end.

Definition of_result {A : Type} (r : result A) : R A :=
  fun w =>
    match r with
    | Ok a => (Returned a, w)
    | Err e => (Failed (Raised e), w)
    end.

Definition engine_run (g_fmscorer : FMScore) (prompts : list json)
  (params : list (string * json)) : R (list string) :=
  fun w =>
    let w' := {| aacs_calls := aacs_calls w;
                 engine_calls := (engine_calls w ++ [(prompts, params)])%list |} in
    match g_fmscorer (engine_calls w) prompts params with
    | Ok responses => (Returned responses, w')
    | Err e => (Failed (Raised e), w')
    end.

(** [assert test, msg] *)
Definition py_assert (test : bool) (msg : string) : R unit :=
  fun w => if test then (Returned tt, w) else (Failed (AssertionError msg), w).

(** [str(i)] for a natural number. *)
Definition str_of_nat (i : nat) : string :=
  DecimalString.NilZero.string_of_uint (Nat.to_uint i).

(** [{str(i): res.response for i, res in enumerate(inference_results)}] *)
Definition enumerate_outputs (responses : list string) : list (string * string) :=
  combine (map str_of_nat (seq 0 (List.length responses))) responses.

(** [outputs[k]] *)
Fixpoint outputs_getitem (k : string) (outputs : list (string * string))
  : result string :=
  match outputs with
  | [] => Err (KeyError (KStr k))
  | (k', v) :: outputs' =>
      if String.eqb k k' then Ok v else outputs_getitem k outputs'
  end.

Section Run.
Variable py_repr : json -> string.
Variable json_loads : string -> result json.
Variable g_fmscorer : FMScore.

(** The [try] block of [run].  The request body arrives as a string.  The
    statistics handed to the telemetry collector are not modelled:
    [g_collector.collect] reports its own failures to its [on_error] handler
    and returns. *)
Definition run_body (G : Globals) (data : string) : R value :=
  ('(data, severity) <- of_aacs (get_safe_input G (VStr data)) ;;
   if g_aacs_threshold G <? severity then run_ret (VDict [])
   else
     '(query, params) <-
       of_result
         match data with
         | VStr request_string => get_request_data py_repr json_loads G request_string
         | _ => Err (TypeError "the JSON object must be str, bytes or bytearray")
         end ;;
     params <-
       of_result
         match params with
         | JDict entries => get_generator_params entries
         | _ => Err (TypeError "params is not a dict")
         end ;;
     if String.eqb (task_type G) CHAT_COMPLETION then
       inference_results <- engine_run g_fmscorer [query] params ;;
       let outputs := enumerate_outputs inference_results in
       output <- of_result (outputs_getitem "0" outputs) ;;
       let result_dict := VDict [(KStr "output", VStr output)] in
       of_aacs (get_safe_response G result_dict)
     else
       _ <- py_assert (String.eqb (task_type G) TEXT_GENERATION && is_list query)
              "query should be a list for text-generation" ;;
       inference_results <-
         engine_run g_fmscorer
           match query with
           | JList prompts => prompts
           | _ => []
           end params ;;
       let outputs := enumerate_outputs inference_results in
       let result_dict :=
         VDataFrame [KInt 0] (map (fun kv => KStr (fst kv)) outputs)
           [map (fun kv => VStr (snd kv)) outputs] in
       of_aacs (get_safe_response G result_dict))%run.

(** [run]: whatever the [try] block raises is answered with an error text. *)
Definition run (G : Globals) (data : string) : world -> value * world :=
  fun w =>
    match run_body G data w with
    | (Returned result, w') => (result, w')
    | (Failed e, w') =>
        (VStr (dumps_error "Error in processing request" (str_of_raised e)), w')
    end.
End Run.

(** ** Vocabulary of the statements *)

(** A chunk fits the size limit. *)
Definition fits (max_n : Z) (chunk : string) : Prop := len chunk <= max_n.

(** A text made of whitespace characters only (the empty text included). *)
Fixpoint whitespace_only (s : string) : bool :=
  match s with
  | EmptyString => true
  | String c s' => isspace c && whitespace_only s'
  end.

(** A text made of full stops only. *)
Fixpoint only_delimiters (s : string) : bool :=
  match s with
  | EmptyString => true
  | String c s' => Ascii.eqb c "."%char && only_delimiters s'
  end.

(** Mappings, sequences and tabular structures. *)
Definition is_composite (obj : value) : bool :=
  match obj with
  | VList _ | VDict _ | VNdarray _ | VDataFrame _ _ _ => true
  | _ => false
  end.

(** Scalars that are not strings. *)
Definition is_plain_scalar (obj : value) : bool :=
  match obj with
  | VNone | VBool _ | VInt _ | VFloat _ _ => true
  | _ => false
  end.

(** The immediate children of a composite, in traversal order: the items of
    a list or array, the values of a dictionary, the cells of a DataFrame row
    by row. *)
Definition children (obj : value) : list value :=
  match obj with
  | VList items | VNdarray items => items
  | VDict entries => map snd entries
  | VDataFrame _ _ data => List.concat data
  | _ => []
  end.

(** [iterate] run on each object of a list in turn. *)
Fixpoint iterate_each (G : Globals) (objs : list value) : M (list (value * Z)) :=
  match objs with
  | [] => mret []
  | obj :: objs' =>
      (r <- iterate G obj ;;
       rs <- iterate_each G objs' ;;
       mret (r :: rs))%aacs
  end.

(** [severity] is the maximum of [severities], and 0 when there is none. *)
Definition maximum_of (severities : list Z) (severity : Z) : Prop :=
  Forall (fun s => s <= severity) severities
  /\ (severities = [] -> severity = 0)
  /\ (severities <> [] -> In severity severities).

(** The position of the cell that [obj.at[i, j]] addresses. *)
Definition cell_position (index columns : list key) (ij : nat * nat)
  : option (nat * nat) :=
  match position (KInt (Z.of_nat (snd ij))) columns with
  | None => None
  | Some c =>
      match position (KInt (Z.of_nat (fst ij))) index with
      | None => None
      | Some r => Some (r, c)
      end
  end.

(** The cell that [obj.at[i, j]] reads, if there is one. *)
Definition addressed_cell (index columns : list key) (data : list (list value))
  (ij : nat * nat) : option value :=
  match cell_position index columns ij with
  | Some (r, c) => grid_get data r c
  | None => None
  end.

(** The data after the assignments [obj.at[i, j] = v], for the pairs
    [(i, j)] and the values [v] of two lists. *)
Fixpoint write_cells (index columns : list key) (data : list (list value))
  (pairs : list (nat * nat)) (vs : list value) : list (list value) :=
  match pairs, vs with
  | ij :: pairs', v :: vs' =>
      match cell_position index columns ij with
      | Some (r, c) => write_cells index columns (grid_set data r c v) pairs' vs'
      | None => data
      end
  | _, _ => data
  end.

Fixpoint all_some {A : Type} (xs : list (option A)) : option (list A) :=
  match xs with
  | [] => Some []
  | None :: _ => None
  | Some x :: xs' => option_map (cons x) (all_some xs')
  end.

(** The pairs [(i, j)] of the two nested loops over a DataFrame, in order. *)
Definition loop_pairs (obj_shape : nat * nat) : list (nat * nat) :=
  list_prod (range_nat (fst obj_shape)) (range_nat (snd obj_shape)).

(** The children that [iterate] reads, in the order it reads them: those of
    [children] for a list, an array or a dictionary; for a DataFrame the
    cells addressed by the labels [0, 1, ...] of the two loops, provided
    every such label exists. *)
Definition visited (obj : value) : option (list value) :=
  match obj with
  | VDataFrame index columns data =>
      all_some (map (addressed_cell index columns data)
                  (loop_pairs (List.length index, List.length columns)))
  | _ => Some (children obj)
  end.

(** The data of a DataFrame has one row per row label and one cell per
    column label in every row. *)
Definition rectangular (obj : value) : bool :=
  match obj with
  | VDataFrame index columns data =>
      (List.length data =? List.length index)%nat
      && forallb (fun row => (List.length row =? List.length columns)%nat) data
  | _ => true
  end.

(** What [iterate] does on a composite [obj] from the log [log]: it runs on
    the children it reads, which are all the immediate children, each once;
    when they all return, it returns a composite holding their results and
    the maximum of their severities; when one raises, it raises; and it
    raises when it cannot read the children. *)
Definition redacts_children (G : Globals) (obj : value) (log : call_log) : Prop :=
  match visited obj with
  | Some cs =>
      Permutation cs (children obj)
      /\ match iterate_each G cs log with
         | (Ok results, log') =>
             exists obj' severity,
               iterate G obj log = (Ok (obj', severity), log')
               /\ visited obj' = Some (map fst results)
               /\ maximum_of (map snd results) severity
         | (Err e, log') => iterate G obj log = (Err e, log')
         end
  | None => exists e log', iterate G obj log = (Err e, log')
  end.

(** The cell at a position, [None] being read outside the data. *)
Definition cell_at (data : list (list value)) (rc : nat * nat) : value :=
  nth (snd rc) (nth (fst rc) data []) VNone.

(** A chat turn: a dictionary whose ["content"] entry is a string. *)
Definition turn_content (message : json) : option string :=
  match getitem message "content" with
  | Ok (JStr c) => Some c
  | _ => None
  end.

(** The answer of [tag in msg[content]] on a well-formed turn. *)
Definition tag_found (tag : string) (message : json) : bool :=
  match turn_content message with
  | Some c => contains tag c
  | None => false
  end.

(** [tag] occurs in [s] as a substring. *)
Definition occurs_in (tag s : string) : Prop :=
  exists before after, s = before ++ tag ++ after.

Definition turn (role content : string) : json :=
  JDict [("role", JStr role); ("content", JStr content)].

(** The request body has no object under ["input_data"]. *)
Definition lacks_input_object (data : json) : bool :=
  match data with
  | JDict entries =>
      match lookup "input_data" entries with
      | Some (JDict _) => false
      | _ => true
      end
  | _ => true
  end.

(** Configurations used in the examples: the service rates a text by its
    length. *)
Definition length_rating_client : ContentSafetyClient :=
  fun _ text =>
    Ok {| hate_result := Some (len text);
          self_harm_result := None;
          sexual_result := Some 1;
          violence_result := None |}.

Definition moderated : Globals :=
  {| g_aacs_threshold := 2;
     g_aacs_client := Some length_rating_client;
     task_type := TEXT_GENERATION |}.

Definition unmoderated : Globals :=
  {| g_aacs_threshold := 2;
     g_aacs_client := None;
     task_type := TEXT_GENERATION |}.

(** [obj'] is [obj] with some of its strings replaced by the empty string:
    the same scalars, the same keys and labels, the same lengths. *)
Inductive redaction_of : value -> value -> Prop :=
| redaction_scalar (obj : value) :
    is_plain_scalar obj = true -> redaction_of obj obj
| redaction_kept (s : string) : redaction_of (VStr s) (VStr s)
| redaction_removed (s : string) : redaction_of (VStr s) (VStr EmptyString)
| redaction_list (items items' : list value) :
    Forall2 redaction_of items items' ->
    redaction_of (VList items) (VList items')
| redaction_dict (entries entries' : list (key * value)) :
    Forall2 (fun e e' => fst e = fst e' /\ redaction_of (snd e) (snd e'))
      entries entries' ->
    redaction_of (VDict entries) (VDict entries')
| redaction_array (items items' : list value) :
    Forall2 redaction_of items items' ->
    redaction_of (VNdarray items) (VNdarray items')
| redaction_frame (index columns : list key) (data data' : list (list value)) :
    Forall2 (Forall2 redaction_of) data data' ->
    redaction_of (VDataFrame index columns data) (VDataFrame index columns data').

(** The entry list represents a dictionary: no key occurs twice. *)
Fixpoint distinct_keys (d : list (string * json)) : bool :=
  match d with
  | [] => true
  | (k, _) :: d' => negb (dict_contains k d') && distinct_keys d'
  end.


(** [message] is a chat turn with the given role and content. *)
Definition is_turn (message : json) (rc : string * string) : Prop :=
  getitem message "role" = Ok (JStr (fst rc))
  /\ getitem message "content" = Ok (JStr (snd rc)).

(** The content of the last turn when that turn is a user turn. *)
Fixpoint final_user (turns : list (string * string)) : option string :=
  match turns with
  | [] => None
  | [(role, content)] => if String.eqb role "user" then Some content else None
  | _ :: turns' => final_user turns'
  end.

(** No reserved tag is found in the content. *)
Definition tag_free (content : string) : bool :=
  forallb (fun tag => negb (contains tag content)) SPECIAL_TAGS.

(** The local variables of [process_dialog] hold strings, the pending user
    message possibly [None]. *)
Definition dialog_strings (st : dialog_state) : Prop :=
  (exists s, system_prompt st = JStr s)
  /\ Forall (fun p => exists u a, p = (JStr u, JStr a)) (user_assistant_messages st)
  /\ (user_message st = JNull \/ exists u, user_message st = JStr u).

(** The input gate of [run] lets the request body through: without a client
    the severity is 0, which a threshold below 0 still refuses; with one the
    body is rated within the threshold, the service calls leading from
    [log] to [log']. *)
Definition input_passes (G : Globals) (data : string) (log log' : call_log) : Prop :=
  match g_aacs_client G with
  | None => log' = log /\ 0 <= g_aacs_threshold G
  | Some _ =>
      exists severity,
        analyze_text G data log = (Ok severity, log')
        /\ severity <= g_aacs_threshold G
  end.

(** An engine for the examples: it answers every prompt with the same text. *)
Definition echo_engine : FMScore :=
  fun _ prompts _ => Ok (map (fun _ => "ok") prompts).

Ltac run_m := unfold mbind, mret, lift in *.

(** * Properties *)

(** ** Strings *)

Lemma length_append (s t : string) :
  String.length (s ++ t) = (String.length s + String.length t)%nat.
Proof. induction s as [|c s IH]; simpl; [reflexivity | now rewrite IH]. Qed.

Lemma len_app (s t : string) : len (s ++ t) = len s + len t.
Proof. unfold len. rewrite length_append. lia. Qed.

Lemma len_nonneg (s : string) : 0 <= len s.
Proof. unfold len. lia. Qed.

Lemma len_zero (s : string) : len s <= 0 -> s = EmptyString.
Proof. destruct s; [reflexivity | unfold len; simpl; lia]. Qed.

Lemma append_empty_r (s : string) : s ++ EmptyString = s.
Proof. induction s as [|c s IH]; simpl; [reflexivity | now rewrite IH]. Qed.

Lemma append_assoc (s t u : string) : (s ++ t) ++ u = s ++ t ++ u.
Proof. induction s as [|c s IH]; simpl; [reflexivity | now rewrite IH]. Qed.

Lemma string_drop_empty (n : nat) : string_drop n EmptyString = EmptyString.
Proof. destruct n; reflexivity. Qed.

Lemma string_drop_all (s : string) (n : nat) :
  (String.length s <= n)%nat -> string_drop n s = EmptyString.
Proof.
  revert n. induction s as [|c s IH]; intros n Hn.
  - apply string_drop_empty.
  - destruct n as [|n]; simpl in *; [lia | apply IH; lia].
Qed.

Lemma substring_drop (s : string) (a m : nat) :
  substring a m s ++ string_drop (a + m) s = string_drop a s.
Proof.
  revert a m. induction s as [|c s IH]; intros a m.
  - destruct a, m; reflexivity.
  - destruct a as [|a].
    + destruct m as [|m]; simpl; [reflexivity|].
      f_equal. apply (IH O m).
    + simpl. apply IH.
Qed.

Lemma length_substring (s : string) (a m : nat) :
  (String.length (substring a m s) <= m)%nat.
Proof.
  revert a m. induction s as [|c s IH]; intros a m.
  - destruct a, m; simpl; lia.
  - destruct a as [|a].
    + destruct m as [|m]; simpl; [lia|]. specialize (IH O m). lia.
    + simpl. apply IH.
Qed.

Lemma prefix_drop (p s : string) :
  prefix p s = true -> s = p ++ string_drop (String.length p) s.
Proof.
  revert s. induction p as [|a p IH]; intros s H.
  - reflexivity.
  - destruct s as [|b s]; simpl in H; [discriminate|].
    destruct (ascii_dec a b) as [->|]; [|discriminate].
    simpl. f_equal. now apply IH.
Qed.

(** ** Joining and splitting *)

Lemma join_cons (sep x : string) (xs : list string) :
  xs <> [] -> py_join sep (x :: xs) = x ++ sep ++ py_join sep xs.
Proof. destruct xs; [congruence | reflexivity]. Qed.

Lemma join_empty_cons (x : string) (xs : list string) :
  py_join EmptyString (x :: xs) = x ++ py_join EmptyString xs.
Proof. destruct xs; simpl; [now rewrite append_empty_r | reflexivity]. Qed.

Lemma join_empty_app (xs ys : list string) :
  py_join EmptyString (xs ++ ys) = py_join EmptyString xs ++ py_join EmptyString ys.
Proof.
  induction xs as [|x xs IH]; [reflexivity|].
  rewrite <- app_comm_cons, !join_empty_cons, IH, append_assoc. reflexivity.
Qed.

Lemma split_from_nonempty (sep : string) (s : string) (k : nat) :
  split_from sep k s <> [].
Proof.
  revert k. induction s as [|c s IH]; intros k; cbn [split_from]; [discriminate|].
  destruct k as [|k]; [|apply IH].
  destruct (prefix sep (String c s)); [discriminate|].
  destruct (split_from sep 0 s); discriminate.
Qed.

Lemma split_from_skip (sep : string) (s : string) (k : nat) :
  split_from sep k s = split_from sep 0 (string_drop k s).
Proof.
  revert k. induction s as [|c s IH]; intros k.
  - now rewrite string_drop_empty.
  - destruct k as [|k]; [reflexivity | apply IH].
Qed.

Lemma length_string_drop (s : string) (k : nat) :
  (String.length (string_drop k s) <= String.length s)%nat.
Proof.
  revert k. induction s as [|c s IH]; intros k.
  - rewrite string_drop_empty. simpl. lia.
  - destruct k as [|k]; simpl; [lia | specialize (IH k); lia].
Qed.

(** Splitting on a non-empty separator and joining with it is the identity. *)
Lemma join_split_from (sep : string) :
  sep <> EmptyString ->
  forall (n : nat) (s : string),
    (String.length s <= n)%nat -> py_join sep (split_from sep 0 s) = s.
Proof.
  intros Hsep. induction n as [|n IH]; intros s Hn.
  - destruct s; [reflexivity | simpl in Hn; lia].
  - destruct s as [|c s]; [reflexivity|].
    simpl in Hn. cbn [split_from].
    destruct (prefix sep (String c s)) eqn:Hp.
    + rewrite join_cons by apply split_from_nonempty.
      rewrite split_from_skip, IH.
      * apply prefix_drop in Hp. etransitivity; [|symmetry; exact Hp].
        destruct sep as [|a sep]; [congruence|].
        simpl. rewrite Nat.sub_0_r. reflexivity.
      * pose proof (length_string_drop s (String.length sep - 1)). lia.
    + specialize (IH s ltac:(lia)).
      pose proof (split_from_nonempty sep s 0) as Hne.
      destruct (split_from sep 0 s) as [|piece pieces]; [congruence|].
      destruct pieces as [|p pieces]; simpl in *; now rewrite IH.
Qed.

Lemma join_split (s sep : string) (pieces : list string) :
  py_split s sep = Ok pieces -> py_join sep pieces = s.
Proof.
  unfold py_split. destruct sep as [|a sep]; [discriminate|].
  intros [= <-]. apply (join_split_from (String a sep)) with (n := String.length s).
  - discriminate.
  - lia.
Qed.

Lemma split_total (s sep : string) :
  sep <> EmptyString -> py_split s sep = Ok (split_from sep 0 s).
Proof. destruct sep; [congruence | reflexivity]. Qed.

(** Pieces that are all non-empty and followed by one empty piece are
    exactly the pieces of a text made of delimiter-terminated sentences. *)
Lemma delimited_pieces_terminated (delim : string) (ps : list string) :
  forallb nonempty ps = true ->
  delimited_pieces delim (ps ++ [EmptyString]) = map (fun e => e ++ delim) ps
  /\ py_join delim (ps ++ [EmptyString])
     = py_join EmptyString (map (fun e => e ++ delim) ps).
Proof.
  unfold delimited_pieces. induction ps as [|p ps IH]; intros H.
  - split; reflexivity.
  - simpl in H. apply andb_prop in H as [Hp Hps].
    destruct (IH Hps) as [IH1 IH2]. split.
    + simpl. rewrite Hp. simpl. now rewrite IH1.
    + rewrite <- app_comm_cons, join_cons by (destruct ps; discriminate).
      rewrite IH2. simpl map. rewrite join_empty_cons, append_assoc. reflexivity.
Qed.

(** ** Chunker *)

Lemma range_up_slices (s : string) (n : Z) :
  0 < n ->
  forall (fuel : nat) (i : Z),
    0 <= i -> len s - i <= Z.of_nat fuel ->
    py_join EmptyString
      (map (fun i => py_slice s (0 + i) (n + i)) (range_up fuel i (len s) n))
    = string_drop (Z.to_nat i) s
    /\ Forall (fits n)
         (map (fun i => py_slice s (0 + i) (n + i)) (range_up fuel i (len s) n)).
Proof.
  intros Hn. induction fuel as [|fuel IH]; intros i Hi Hfuel; cbn [range_up map].
  - split; [|constructor].
    symmetry. apply string_drop_all. unfold len in Hfuel. lia.
  - destruct (Z.ltb_spec i (len s)) as [Hlt|Hge].
    + destruct (IH (i + n)) as [IHj IHf]; [lia | lia |].
      cbn [map]. rewrite join_empty_cons. split.
      * rewrite IHj. unfold py_slice, slice_bound.
        replace (0 + i <? 0) with false by (symmetry; apply Z.ltb_ge; lia).
        replace (n + i <? 0) with false by (symmetry; apply Z.ltb_ge; lia).
        rewrite <- (substring_drop s (Z.to_nat i)
                      (Z.to_nat (Z.min (n + i) (len s) - Z.min (0 + i) (len s)))).
        replace (Z.min (0 + i) (len s)) with i by lia.
        f_equal.
        destruct (Z.le_ge_cases (n + i) (len s)) as [Hle|Hgt].
        -- f_equal. lia.
        -- rewrite !string_drop_all; [reflexivity | unfold len in *; lia ..].
      * constructor; [|exact IHf].
        unfold fits, py_slice, len.
        pose proof (length_substring s (Z.to_nat (slice_bound s (0 + i)))
                      (Z.to_nat (slice_bound s (n + i) - slice_bound s (0 + i)))) as Hl.
        unfold slice_bound in *.
        replace (0 + i <? 0) with false in * by (symmetry; apply Z.ltb_ge; lia).
        replace (n + i <? 0) with false in * by (symmetry; apply Z.ltb_ge; lia).
        lia.
    + split; [|constructor].
      symmetry. apply string_drop_all. unfold len in Hge. lia.
Qed.

(** With a positive length, [chunkstring] cuts a string into slices that
    fit the length and concatenate back to the string. *)
Lemma chunkstring_spec (s : string) (n : Z) :
  0 < n ->
  exists chunks,
    chunkstring s n = Ok chunks
    /\ py_join EmptyString chunks = s
    /\ Forall (fits n) chunks.
Proof.
  intros Hn. unfold chunkstring, py_range.
  replace (n =? 0) with false by (symmetry; apply Z.eqb_neq; lia).
  replace (0 <? n) with true by (symmetry; apply Z.ltb_lt; lia).
  simpl rbind. eexists. split; [reflexivity|].
  apply (range_up_slices s n Hn (Z.to_nat (len s - 0)) 0); [lia|].
  pose proof (len_nonneg s). lia.
Qed.

Lemma split_by_loop_spec (max_n : Z) (split : list string) :
  0 < max_n ->
  forall (ret : list string) (buffer : string),
  exists ret' buffer',
    split_by_loop max_n split ret buffer = Ok (ret', buffer')
    /\ py_join EmptyString ret' ++ buffer'
       = py_join EmptyString ret ++ buffer ++ py_join EmptyString split
    /\ (Forall (fits max_n) ret -> fits max_n buffer ->
        Forall (fits max_n) ret' /\ fits max_n buffer').
Proof.
  intros Hn. induction split as [|i split IH]; intros ret buffer; cbn [split_by_loop].
  - exists ret, buffer. simpl. rewrite append_empty_r. auto.
  - destruct (Z.ltb_spec max_n (len i)) as [Hbig|Hsmall].
    + destruct (chunkstring_spec i max_n Hn) as (chunks & -> & Hjoin & Hfit).
      simpl rbind.
      destruct (IH ((ret ++ [buffer]) ++ chunks)%list EmptyString)
        as (ret' & buffer' & -> & Hcat & Hbound).
      exists ret', buffer'. split; [reflexivity|]. split.
      * rewrite Hcat, !join_empty_app, Hjoin, (join_empty_cons i split). simpl.
        rewrite ?append_empty_r, ?append_assoc. reflexivity.
      * intros Hret Hbuf. apply Hbound.
        -- apply Forall_app. split; [|exact Hfit].
           apply Forall_app. split; [exact Hret | now constructor].
        -- unfold fits, len. simpl. lia.
    + destruct (Z.leb_spec (len buffer + len i) max_n) as [Hroom|Hfull].
      * destruct (IH ret (buffer ++ i)) as (ret' & buffer' & -> & Hcat & Hbound).
        exists ret', buffer'. split; [reflexivity|]. split.
        -- rewrite Hcat, (join_empty_cons i split), !append_assoc. reflexivity.
        -- intros Hret _. apply Hbound; [exact Hret|].
           unfold fits. rewrite len_app. exact Hroom.
      * destruct (IH (ret ++ [buffer])%list i) as (ret' & buffer' & -> & Hcat & Hbound).
        exists ret', buffer'. split; [reflexivity|]. split.
        -- rewrite Hcat, join_empty_app, (join_empty_cons i split). simpl.
           rewrite ?append_empty_r, ?append_assoc. reflexivity.
        -- intros Hret Hbuf. apply Hbound; [|exact Hsmall].
           apply Forall_app. split; [exact Hret | now constructor].
Qed.

(** What [split_by] returns for a positive chunk size and a usable
    delimiter: chunks that fit the size and concatenate to the re-delimited
    non-empty pieces of the input. *)
Lemma split_by_spec (self : CsChunkingUtils) (input : string) :
  0 < chunking_n self -> delimiter self <> EmptyString ->
  exists chunks,
    split_by self input = Ok chunks
    /\ py_join EmptyString chunks
       = py_join EmptyString
           (delimited_pieces (delimiter self) (split_from (delimiter self) 0 input))
    /\ Forall (fits (chunking_n self)) chunks.
Proof.
  intros Hn Hd. unfold split_by. rewrite (split_total _ _ Hd). simpl rbind.
  destruct (split_by_loop_spec (chunking_n self)
              (delimited_pieces (delimiter self) (split_from (delimiter self) 0 input))
              Hn [] EmptyString) as (ret & buffer & -> & Hcat & Hbound).
  simpl rbind. eexists. split; [reflexivity|].
  destruct Hbound as [Hret Hbuf]; [constructor | unfold fits, len; simpl; lia |].
  simpl in Hcat. destruct (Z.ltb_spec 0 (len buffer)) as [Hpos|Hzero].
  - split.
    + rewrite join_empty_app. simpl. exact Hcat.
    + apply Forall_app. split; [exact Hret | now constructor].
  - split; [|exact Hret].
    rewrite (len_zero buffer Hzero), append_empty_r in Hcat. exact Hcat.
Qed.

(** *** When the chunker returns no chunk *)

Lemma split_from_stop (c : ascii) (s : string) :
  split_from "." 0 (String c s)
  = if Ascii.eqb c "."%char then EmptyString :: split_from "." 0 s
    else match split_from "." 0 s with
         | piece :: pieces => String c piece :: pieces
         | [] => [String c EmptyString]
         end.
Proof.
  cbn [split_from prefix]. destruct (ascii_dec "."%char c) as [<-|Hne].
  - replace (prefix EmptyString s) with true by (now destruct s). reflexivity.
  - replace (Ascii.eqb c ".") with false; [reflexivity|].
    symmetry. apply Ascii.eqb_neq. congruence.
Qed.

(** A text of full stops has only empty pieces; any other text has a
    non-empty piece. *)
Lemma pieces_of_delimiters (s : string) :
  delimited_pieces "." (split_from "." 0 s) = []
  <-> only_delimiters s = true.
Proof.
  unfold delimited_pieces. induction s as [|c s IH].
  - split; reflexivity.
  - rewrite split_from_stop. cbn [only_delimiters].
    destruct (Ascii.eqb c ".").
    + simpl. exact IH.
    + simpl. split; [|discriminate].
      destruct (split_from "." 0 s); discriminate.
Qed.

Lemma delimited_pieces_nonempty (delim : string) (pieces : list string) :
  Forall (fun i => i <> EmptyString) (delimited_pieces delim pieces).
Proof.
  unfold delimited_pieces. apply Forall_forall. intros i Hin.
  apply in_map_iff in Hin as (e & <- & He).
  apply filter_In in He as [_ He]. destruct e; [discriminate|]. discriminate.
Qed.

(** Once a piece has been seen, [ret] or [buffer] holds something. *)
Lemma split_by_loop_nonempty (max_n : Z) (split : list string) :
  Forall (fun i => i <> EmptyString) split ->
  forall ret buffer ret' buffer',
    split_by_loop max_n split ret buffer = Ok (ret', buffer') ->
    split <> [] \/ ret <> [] \/ buffer <> EmptyString ->
    ret' <> [] \/ buffer' <> EmptyString.
Proof.
  induction 1 as [|i split Hi Hsplit IH]; intros ret buffer ret' buffer';
    cbn [split_by_loop].
  - intros [= <- <-] [H|H]; [congruence | exact H].
  - intros Hloop _. destruct (max_n <? len i).
    + destruct (chunkstring i max_n) as [chunks|e]; [|discriminate].
      apply IH in Hloop; [exact Hloop|].
      right. left. destruct ret; discriminate.
    + destruct (len buffer + len i <=? max_n).
      * apply IH in Hloop; [exact Hloop|].
        right. right. destruct buffer; [exact Hi | discriminate].
      * apply IH in Hloop; [exact Hloop|].
        right. left. destruct ret; discriminate.
Qed.

Lemma split_by_no_chunk (text : string) :
  only_delimiters text = true -> split_by default_chunking_utils text = Ok [].
Proof.
  intros Htext. apply pieces_of_delimiters in Htext.
  unfold split_by. simpl. now rewrite Htext.
Qed.

(** The default chunker returns at least one chunk for every text that is
    not made of full stops only. *)
Lemma split_by_some_chunk (text : string) :
  only_delimiters text = false ->
  exists chunk chunks, split_by default_chunking_utils text = Ok (chunk :: chunks).
Proof.
  intros Htext.
  assert (Hpieces : delimited_pieces "." (split_from "." 0 text) <> []).
  { intros H. apply pieces_of_delimiters in H. congruence. }
  unfold split_by. cbn [py_split delimiter chunking_n default_chunking_utils rbind].
  destruct (split_by_loop_spec 1000 (delimited_pieces "." (split_from "." 0 text))
              ltac:(lia) [] EmptyString) as (ret & buffer & Hloop & _).
  rewrite Hloop. cbn [rbind].
  apply split_by_loop_nonempty in Hloop;
    [|apply delimited_pieces_nonempty | now left].
  destruct Hloop as [Hret|Hbuf].
  - destruct (0 <? len buffer); destruct ret; try congruence; simpl; eauto.
  - destruct buffer as [|c buffer]; [congruence|].
    replace (0 <? len (String c buffer)) with true
      by (symmetry; apply Z.ltb_lt; unfold len; simpl; lia).
    destruct ret; simpl; eauto.
Qed.

Lemma rstrip_delimiters (s : string) :
  only_delimiters s = true -> rstrip s = s.
Proof.
  induction s as [|c s IH]; [reflexivity|].
  cbn [only_delimiters rstrip]. intros H. apply andb_prop in H as [Hc Hs].
  rewrite (IH Hs). apply Ascii.eqb_eq in Hc. subst c.
  destruct s; reflexivity.
Qed.

Lemma strip_delimiters (s : string) :
  only_delimiters s = true -> py_strip s = s.
Proof.
  intros H. unfold py_strip.
  replace (lstrip s) with s; [now apply rstrip_delimiters|].
  destruct s as [|c s]; [reflexivity|].
  simpl in H. apply andb_prop in H as [Hc _].
  apply Ascii.eqb_eq in Hc. now subst c.
Qed.

(** ** Severity analyzer *)

Lemma lstrip_whitespace (s : string) :
  whitespace_only s = true -> lstrip s = EmptyString.
Proof.
  induction s as [|c s IH]; simpl; [reflexivity|].
  intros H. apply andb_prop in H as [-> Hs]. now apply IH.
Qed.

Lemma strip_whitespace (s : string) :
  whitespace_only s = true -> py_strip s = EmptyString.
Proof. intros H. unfold py_strip. now rewrite lstrip_whitespace. Qed.

Lemma max_with_ge (severity : Z) (category : option Z) :
  severity <= max_with severity category.
Proof. destruct category; simpl; lia. Qed.

Lemma analyze_response_nonneg (response : AnalyzeTextResult) :
  0 <= analyze_response response.
Proof.
  unfold analyze_response.
  pose proof (max_with_ge 0 (hate_result response)).
  pose proof (max_with_ge (max_with 0 (hate_result response)) (self_harm_result response)).
  pose proof (max_with_ge
                (max_with (max_with 0 (hate_result response)) (self_harm_result response))
                (sexual_result response)).
  pose proof (max_with_ge
                (max_with
                   (max_with (max_with 0 (hate_result response))
                      (self_harm_result response))
                   (sexual_result response))
                (violence_result response)).
  lia.
Qed.

Lemma fold_max_ge (xs : list Z) (x : Z) : x <= fold_left Z.max xs x.
Proof.
  revert x. induction xs as [|y xs IH]; intros x; simpl; [lia|].
  specialize (IH (Z.max x y)). lia.
Qed.

Lemma analyze_chunks_nonneg (client : option ContentSafetyClient) (chunks : list string) :
  forall log result log',
    analyze_chunks client chunks log = (Ok result, log') ->
    Forall (fun s => 0 <= s) result.
Proof.
  induction chunks as [|c chunks IH]; intros log result log'; simpl.
  - unfold mret. intros [= <- _]. constructor.
  - unfold mbind, mret.
    destruct (client_analyze_text client c log) as [[response|e] log1]; [|discriminate].
    destruct (analyze_chunks client chunks log1) as [[rest|e] log2] eqn:Hrest;
      [|discriminate].
    intros [= <- _]. constructor.
    + apply analyze_response_nonneg.
    + eapply IH. exact Hrest.
Qed.

(** Every severity that [analyze_text] returns is non-negative. *)
Lemma analyze_text_nonneg (G : Globals) (text : string) :
  forall log severity log',
    analyze_text G text log = (Ok severity, log') -> 0 <= severity.
Proof.
  intros log severity log'. unfold analyze_text.
  destruct (negb (nonempty text) || negb (nonempty (py_strip text))).
  - unfold mret. intros [= <- _]. lia.
  - unfold mbind, mret, lift.
    destruct (split_by default_chunking_utils text) as [chunks|e]; [|discriminate].
    destruct (analyze_chunks (g_aacs_client G) chunks log) as [[result|e] log1] eqn:Hr;
      [|discriminate].
    apply analyze_chunks_nonneg in Hr.
    destruct result as [|x result]; simpl; [discriminate|].
    intros [= <- _]. inversion Hr; subst.
    pose proof (fold_max_ge result x). lia.
Qed.

(** ** Structural redactor *)

Lemma fold_max_spec (xs : list Z) :
  forall a,
    Forall (fun s => s <= fold_left Z.max xs a) xs
    /\ (fold_left Z.max xs a = a \/ In (fold_left Z.max xs a) xs).
Proof.
  induction xs as [|x xs IH]; intros a; simpl.
  - split; [constructor | now left].
  - destruct (IH (Z.max a x)) as [Hall Hin]. split.
    + constructor; [|exact Hall].
      pose proof (fold_max_ge xs (Z.max a x)). lia.
    + destruct Hin as [Heq|Hin]; [|now right; right].
      rewrite Heq. destruct (Z.max_spec a x) as [[_ ->]|[_ ->]]; auto.
Qed.

(** Starting the running maximum at 0 is harmless for non-negative
    severities. *)
Lemma fold_max_maximum (xs : list Z) :
  Forall (fun s => 0 <= s) xs -> maximum_of xs (fold_left Z.max xs 0).
Proof.
  intros Hpos. destruct (fold_max_spec xs 0) as [Hall Hin].
  split; [exact Hall|]. split.
  - intros ->. reflexivity.
  - intros Hne. destruct Hin as [Heq|Hin]; [|exact Hin].
    destruct xs as [|x xs]; [congruence|].
    rewrite Heq in *. inversion Hall; subst. inversion Hpos; subst.
    left. lia.
Qed.

Lemma iterate_items_each (G : Globals) (items : list value) :
  forall severity log,
    iterate_items (iterate G) items severity log
    = match iterate_each G items log with
      | (Ok rs, log') =>
          (Ok (map fst rs, fold_left Z.max (map snd rs) severity), log')
      | (Err e, log') => (Err e, log')
      end.
Proof.
  induction items as [|v items IH]; intros severity log; simpl; [reflexivity|].
  run_m. destruct (iterate G v log) as [[[v' s]|e] log1]; [|reflexivity].
  rewrite IH. destruct (iterate_each G items log1) as [[rs|e] log2]; reflexivity.
Qed.

Lemma iterate_entries_each (G : Globals) (entries : list (key * value)) :
  forall severity log,
    iterate_entries (iterate G) entries severity log
    = match iterate_each G (map snd entries) log with
      | (Ok rs, log') =>
          (Ok (combine (map fst entries) (map fst rs),
               fold_left Z.max (map snd rs) severity), log')
      | (Err e, log') => (Err e, log')
      end.
Proof.
  induction entries as [|[k v] entries IH]; intros severity log; simpl; [reflexivity|].
  run_m. destruct (iterate G v log) as [[[v' s]|e] log1]; [|reflexivity].
  rewrite IH. destruct (iterate_each G (map snd entries) log1) as [[rs|e] log2];
    reflexivity.
Qed.

Lemma iterate_each_length (G : Globals) (objs : list value) :
  forall log rs log',
    iterate_each G objs log = (Ok rs, log') -> List.length rs = List.length objs.
Proof.
  induction objs as [|o objs IH]; intros log rs log'; simpl; run_m.
  - intros [= <- _]. reflexivity.
  - destruct (iterate G o log) as [[r|e] log1]; [|discriminate].
    destruct (iterate_each G objs log1) as [[rs'|e] log2] eqn:Hrs; [|discriminate].
    intros [= <- _]. simpl. f_equal. eapply IH. exact Hrs.
Qed.

Lemma iterate_each_app (G : Globals) (xs ys : list value) :
  forall log,
    iterate_each G (xs ++ ys) log
    = match iterate_each G xs log with
      | (Ok rs, log1) =>
          match iterate_each G ys log1 with
          | (Ok rs', log2) => (Ok (rs ++ rs')%list, log2)
          | (Err e, log2) => (Err e, log2)
          end
      | (Err e, log1) => (Err e, log1)
      end.
Proof.
  induction xs as [|x xs IH]; intros log; simpl; run_m.
  - destruct (iterate_each G ys log) as [[rs|e] log1]; reflexivity.
  - destruct (iterate G x log) as [[r|e] log1]; [|reflexivity].
    rewrite IH. destruct (iterate_each G xs log1) as [[rs|e] log2]; [|reflexivity].
    destruct (iterate_each G ys log2) as [[rs'|e] log3]; reflexivity.
Qed.

Lemma snd_combine {A B : Type} (xs : list A) (ys : list B) :
  List.length xs = List.length ys -> map snd (combine xs ys) = ys.
Proof.
  revert ys. induction xs as [|x xs IH]; intros [|y ys] H; simpl in *;
    try discriminate; [reflexivity|].
  f_equal. apply IH. lia.
Qed.

(** A generic invariant of [for_each] loops. *)
Lemma for_each_invariant {A S : Type} (P : S -> Prop) (body : A -> S -> M S)
  (xs : list A) :
  (forall x acc log acc' log', body x acc log = (Ok acc', log') -> P acc -> P acc') ->
  forall acc log acc' log',
    for_each xs body acc log = (Ok acc', log') -> P acc -> P acc'.
Proof.
  intros Hbody. induction xs as [|x xs IH]; intros acc log acc' log'; simpl; run_m.
  - intros [= <- _]. auto.
  - destruct (body x acc log) as [[acc1|e] log1] eqn:Hx; [|discriminate].
    intros Hrest Hacc. eapply IH; [exact Hrest|]. eapply Hbody; eauto.
Qed.

Lemma iterate_cell_nonneg (index columns : list key)
  (cells : list (list (M (value * Z)))) (i j : nat) :
  forall acc log acc' log',
    iterate_cell index columns cells i j acc log = (Ok acc', log') ->
    0 <= snd acc -> 0 <= snd acc'.
Proof.
  intros [data severity] log acc' log'. unfold iterate_cell.
  destruct (position (KInt (Z.of_nat j)) columns); [|discriminate].
  destruct (position (KInt (Z.of_nat i)) index); [|discriminate].
  destruct (grid_get cells n0 n) as [cell|]; [|discriminate].
  run_m. destruct (cell log) as [[[v s]|e] log1]; [|discriminate].
  intros [= <- _]. simpl. lia.
Qed.

(** Every severity that [iterate] returns is non-negative. *)
Lemma iterate_nonneg (G : Globals) (obj : value) :
  forall log obj' severity log',
    iterate G obj log = (Ok (obj', severity), log') -> 0 <= severity.
Proof.
  intros log obj' severity log'. destruct obj; simpl; run_m;
    try (intros [= _ <- _]; lia).
  - destruct (analyze_text G s log) as [[sev|e] log1] eqn:Ha; [|discriminate].
    apply analyze_text_nonneg in Ha.
    destruct (g_aacs_threshold G <? sev); intros [= _ <- _]; exact Ha.
  - rewrite iterate_items_each.
    destruct (iterate_each G items log) as [[rs|e] log1]; [|discriminate].
    intros [= _ <- _]. apply fold_max_ge.
  - rewrite iterate_entries_each.
    destruct (iterate_each G (map snd entries) log) as [[rs|e] log1]; [|discriminate].
    intros [= _ <- _]. apply fold_max_ge.
  - rewrite iterate_items_each.
    destruct (iterate_each G items log) as [[rs|e] log1]; [|discriminate].
    intros [= _ <- _]. apply fold_max_ge.
  - match goal with
    | |- context [for_each ?xs ?body ?acc log] =>
        destruct (for_each xs body acc log) as [[[data' sev]|e] log1] eqn:Hloop
    end; [|discriminate].
    intros [= _ <- _].
    apply (for_each_invariant (fun acc => 0 <= snd acc)) in Hloop; simpl in *;
      [exact Hloop | | lia].
    intros i acc l acc' l' Hrow Hacc.
    apply (for_each_invariant (fun acc => 0 <= snd acc)) in Hrow; [exact Hrow | | exact Hacc].
    intros j. apply iterate_cell_nonneg.
Qed.

Lemma iterate_each_nonneg (G : Globals) (objs : list value) :
  forall log rs log',
    iterate_each G objs log = (Ok rs, log') ->
    Forall (fun s => 0 <= s) (map snd rs).
Proof.
  induction objs as [|o objs IH]; intros log rs log'; simpl; run_m.
  - intros [= <- _]. constructor.
  - destruct (iterate G o log) as [[[o' s]|e] log1] eqn:Ho; [|discriminate].
    destruct (iterate_each G objs log1) as [[rs'|e] log2] eqn:Hrs; [|discriminate].
    intros [= <- _]. simpl. constructor.
    + eapply iterate_nonneg. exact Ho.
    + eapply IH. exact Hrs.
Qed.

(** *** In-place updates of rows and cells *)

Lemma nth_error_list_set {A : Type} (l : list A) (n : nat) (x : A) :
  (n < List.length l)%nat -> nth_error (list_set l n x) n = Some x.
Proof.
  revert n. induction l as [|y l IH]; intros [|n] H; simpl in *; try lia; auto.
  apply IH. lia.
Qed.

Lemma nth_error_list_set_other {A : Type} (l : list A) (n k : nat) (x : A) :
  n <> k -> nth_error (list_set l n x) k = nth_error l k.
Proof.
  revert n k. induction l as [|y l IH]; intros [|n] [|k] H; simpl; auto;
    try congruence.
Qed.

Lemma grid_get_set_same {A : Type} (g : list (list A)) (r c : nat) (x : A) :
  grid_get g r c <> None -> grid_get (grid_set g r c x) r c = Some x.
Proof.
  unfold grid_get, grid_set. destruct (nth_error g r) as [row|] eqn:Hrow;
    [|congruence].
  intros Hc. rewrite nth_error_list_set.
  - apply nth_error_list_set. now apply nth_error_Some.
  - apply nth_error_Some. congruence.
Qed.

Lemma grid_get_set_other {A : Type} (g : list (list A)) (r c r' c' : nat) (x : A) :
  (r, c) <> (r', c') -> grid_get (grid_set g r c x) r' c' = grid_get g r' c'.
Proof.
  intros Hne. unfold grid_get, grid_set.
  destruct (nth_error g r) as [row|] eqn:Hrow; [|reflexivity].
  destruct (Nat.eq_dec r r') as [<-|Hr].
  - rewrite nth_error_list_set by (apply nth_error_Some; congruence).
    rewrite Hrow. apply nth_error_list_set_other. congruence.
  - now rewrite nth_error_list_set_other.
Qed.

(** *** Labels *)

Lemma key_eqb_eq (a b : key) : key_eqb a b = true -> a = b.
Proof.
  destruct a, b; simpl; try discriminate.
  - intros H. apply Z.eqb_eq in H. now subst.
  - intros H. apply String.eqb_eq in H. now subst.
Qed.

Lemma position_nth (k : key) (labels : list key) (r : nat) :
  position k labels = Some r -> nth_error labels r = Some k.
Proof.
  revert r. induction labels as [|l labels IH]; intros r; simpl; [discriminate|].
  destruct (key_eqb k l) eqn:Hk.
  - intros [= <-]. apply key_eqb_eq in Hk. now subst.
  - destruct (position k labels) as [r'|]; [|discriminate].
    intros [= <-]. now apply IH.
Qed.

Lemma cell_position_bounds (index columns : list key) (ij rc : nat * nat) :
  cell_position index columns ij = Some rc ->
  (fst rc < List.length index)%nat /\ (snd rc < List.length columns)%nat.
Proof.
  unfold cell_position.
  destruct (position _ columns) as [c|] eqn:Hc; [|discriminate].
  destruct (position _ index) as [r|] eqn:Hr; [|discriminate].
  intros [= <-]. simpl. apply position_nth in Hc, Hr.
  split; apply nth_error_Some; congruence.
Qed.

(** Distinct label pairs address distinct cells. *)
Lemma cell_position_injective (index columns : list key) (ij ij' rc : nat * nat) :
  cell_position index columns ij = Some rc ->
  cell_position index columns ij' = Some rc ->
  ij = ij'.
Proof.
  unfold cell_position. destruct ij as [i j], ij' as [i' j']. simpl.
  destruct (position (KInt (Z.of_nat j)) columns) as [c|] eqn:Hc; [|discriminate].
  destruct (position (KInt (Z.of_nat i)) index) as [r|] eqn:Hr; [|discriminate].
  destruct (position (KInt (Z.of_nat j')) columns) as [c'|] eqn:Hc'; [|discriminate].
  destruct (position (KInt (Z.of_nat i')) index) as [r'|] eqn:Hr'; [|discriminate].
  intros [= <-] [= -> ->].
  apply position_nth in Hc, Hr, Hc', Hr'.
  rewrite Hc in Hc'. rewrite Hr in Hr'.
  injection Hc' as Hj. injection Hr' as Hi.
  f_equal; lia.
Qed.

(** *** The loops over a DataFrame *)

Lemma for_each_app {A S : Type} (xs ys : list A) (body : A -> S -> M S)
  (acc : S) (log : call_log) :
  for_each (xs ++ ys) body acc log
  = match for_each xs body acc log with
    | (Ok acc', log') => for_each ys body acc' log'
    | (Err e, log') => (Err e, log')
    end.
Proof.
  revert acc log. induction xs as [|x xs IH]; intros acc log; simpl; run_m.
  - reflexivity.
  - destruct (body x acc log) as [[acc1|e] log1]; [apply IH | reflexivity].
Qed.

Lemma for_each_map {A B S : Type} (f : A -> B) (xs : list A) (body : B -> S -> M S)
  (acc : S) (log : call_log) :
  for_each (map f xs) body acc log = for_each xs (fun x => body (f x)) acc log.
Proof.
  revert acc log. induction xs as [|x xs IH]; intros acc log; simpl; run_m.
  - reflexivity.
  - destruct (body (f x) acc log) as [[acc1|e] log1]; [apply IH | reflexivity].
Qed.

(** Two nested loops run through the pairs of their indices. *)
Lemma for_each_nested {A B S : Type} (xs : list A) (ys : list B)
  (body : A -> B -> S -> M S) (acc : S) (log : call_log) :
  for_each xs (fun x => for_each ys (body x)) acc log
  = for_each (list_prod xs ys) (fun xy => body (fst xy) (snd xy)) acc log.
Proof.
  revert acc log. induction xs as [|x xs IH]; intros acc log; [reflexivity|].
  simpl list_prod. rewrite for_each_app, for_each_map. simpl. run_m.
  change (fun x0 : B => body x x0) with (body x).
  destruct (for_each ys (body x) acc log) as [[acc1|e] log1];
    [apply IH | reflexivity].
Qed.

Section Frame.
Variable G : Globals.
Variables index columns : list key.
Variable data : list (list value).

Lemma frame_step_missing (ij : nat * nat) :
  addressed_cell index columns data ij = None ->
  exists e, forall acc log,
    iterate_cell index columns (map (map (iterate G)) data) (fst ij) (snd ij) acc log = (Err e, log).
Proof.
  unfold addressed_cell, cell_position, iterate_cell.
  destruct (position _ columns) as [c|]; [|eexists; intros [] ?; reflexivity].
  destruct (position _ index) as [r|]; [|eexists; intros [] ?; reflexivity].
  unfold grid_get. rewrite nth_error_map.
  destruct (nth_error data r) as [row|]; simpl;
    [|intros _; eexists; intros [] ?; reflexivity].
  rewrite nth_error_map. intros ->. eexists. intros [] ?. reflexivity.
Qed.

Lemma frame_step_cell (ij : nat * nat) (v : value) :
  addressed_cell index columns data ij = Some v ->
  exists r c,
    cell_position index columns ij = Some (r, c)
    /\ forall cur severity log,
         iterate_cell index columns (map (map (iterate G)) data) (fst ij) (snd ij)
           (cur, severity) log
         = match iterate G v log with
           | (Ok (v', s), log') => (Ok (grid_set cur r c v', Z.max severity s), log')
           | (Err e, log') => (Err e, log')
           end.
Proof.
  unfold addressed_cell, cell_position, iterate_cell.
  destruct (position _ columns) as [c|]; [|discriminate].
  destruct (position _ index) as [r|]; [|discriminate].
  intros Hv. exists r, c. split; [reflexivity|]. intros cur severity log.
  unfold grid_get in *. rewrite nth_error_map.
  destruct (nth_error data r) as [row|]; [|discriminate]. simpl.
  rewrite nth_error_map, Hv. simpl. unfold mbind, mret.
  destruct (iterate G v log) as [[[v' s]|e] log1]; reflexivity.
Qed.

(** The loop over the pairs [pairs] redacts the cells they address, in
    order, and fails when one of them addresses no cell. *)
Lemma frame_loop (pairs : list (nat * nat)) :
  forall cur severity log,
    match all_some (map (addressed_cell index columns data) pairs) with
    | Some cs =>
        for_each pairs
          (fun ij => iterate_cell index columns (map (map (iterate G)) data) (fst ij) (snd ij))
          (cur, severity) log
        = match iterate_each G cs log with
          | (Ok rs, log') =>
              (Ok (write_cells index columns cur pairs (map fst rs),
                   fold_left Z.max (map snd rs) severity), log')
          | (Err e, log') => (Err e, log')
          end
    | None =>
        exists e log',
          for_each pairs
            (fun ij => iterate_cell index columns (map (map (iterate G)) data) (fst ij) (snd ij))
            (cur, severity) log
          = (Err e, log')
    end.
Proof.
  induction pairs as [|ij pairs IH]; intros cur severity log; [reflexivity|].
  cbn [map all_some for_each].
  destruct (addressed_cell index columns data ij) as [v|] eqn:Hcell.
  - destruct (frame_step_cell ij v Hcell) as (r & c & Hpos & Hstep).
    destruct (all_some (map (addressed_cell index columns data) pairs)) as [cs|];
      simpl option_map; cbv iota.
    + cbn [iterate_each]. unfold mbind, mret. rewrite Hstep.
      destruct (iterate G v log) as [[[v' s]|e] log1]; [|reflexivity].
      rewrite IH.
      destruct (iterate_each G cs log1) as [[rs|e] log2]; [|reflexivity].
      simpl. now rewrite Hpos.
    + unfold mbind. rewrite Hstep.
      destruct (iterate G v log) as [[[v' s]|e] log1]; [apply IH | eauto].
  - destruct (frame_step_missing ij Hcell) as (e & Hstep).
    exists e, log. unfold mbind. now rewrite Hstep.
Qed.
End Frame.

(** [iterate] on a DataFrame is the loop over the pairs of its shape. *)
Lemma iterate_frame (G : Globals) (index columns : list key) (data : list (list value))
  (log : call_log) :
  iterate G (VDataFrame index columns data) log
  = match for_each (loop_pairs (List.length index, List.length columns))
            (fun ij => iterate_cell index columns (map (map (iterate G)) data)
                         (fst ij) (snd ij))
            (data, 0) log
    with
    | (Ok (data', severity), log') => (Ok (VDataFrame index columns data', severity), log')
    | (Err e, log') => (Err e, log')
    end.
Proof.
  simpl iterate. unfold mbind, mret. rewrite for_each_nested. unfold loop_pairs.
  simpl fst. simpl snd.
  destruct (for_each _ _ _ _) as [[[data' severity]|e] log']; reflexivity.
Qed.

(** *** Reading back what the loops wrote *)

Lemma addressed_cell_set_other (index columns : list key) (data : list (list value))
  (ij ij' : nat * nat) (r c : nat) (v : value) :
  cell_position index columns ij = Some (r, c) -> ij <> ij' ->
  addressed_cell index columns (grid_set data r c v) ij'
  = addressed_cell index columns data ij'.
Proof.
  intros Hpos Hne. unfold addressed_cell.
  destruct (cell_position index columns ij') as [[r' c']|] eqn:Hpos'; [|reflexivity].
  apply grid_get_set_other. intros [= <- <-].
  apply Hne. eapply cell_position_injective; eassumption.
Qed.

Lemma write_cells_other (index columns : list key) (pairs : list (nat * nat)) :
  forall data vs ij,
    ~ In ij pairs ->
    addressed_cell index columns (write_cells index columns data pairs vs) ij
    = addressed_cell index columns data ij.
Proof.
  induction pairs as [|p pairs IH]; intros data vs ij Hnot; [reflexivity|].
  destruct vs as [|v vs]; [reflexivity|]. simpl.
  destruct (cell_position index columns p) as [[r c]|] eqn:Hpos; [|reflexivity].
  rewrite IH by (intros Hin; apply Hnot; now right).
  eapply addressed_cell_set_other; [exact Hpos|].
  intros ->. apply Hnot. now left.
Qed.

(** After the loops, the addressed cells hold the values written to them. *)
Lemma write_cells_read (index columns : list key) (pairs : list (nat * nat)) :
  NoDup pairs ->
  forall data vs,
    List.length vs = List.length pairs ->
    Forall (fun ij => addressed_cell index columns data ij <> None) pairs ->
    all_some (map (addressed_cell index columns
                     (write_cells index columns data pairs vs)) pairs)
    = Some vs.
Proof.
  induction 1 as [|p pairs Hnot Hnodup IH]; intros data vs Hlen Hcells.
  - destruct vs; [reflexivity | discriminate].
  - destruct vs as [|v vs]; [discriminate|].
    inversion Hcells as [|? ? Hp Hrest]; subst.
    cbn [map all_some write_cells].
    destruct (cell_position index columns p) as [[r c]|] eqn:Hpos.
    + rewrite (write_cells_other index columns pairs _ vs p Hnot).
      unfold addressed_cell at 1. rewrite Hpos.
      unfold addressed_cell in Hp. rewrite Hpos in Hp.
      rewrite (grid_get_set_same data r c v Hp).
      rewrite IH; [reflexivity | simpl in Hlen; lia |].
      apply Forall_forall. intros ij Hin.
      rewrite (addressed_cell_set_other index columns data p ij r c v Hpos).
      * rewrite Forall_forall in Hrest. now apply Hrest.
      * intros ->. contradiction.
    + unfold addressed_cell in Hp. rewrite Hpos in Hp. congruence.
Qed.

Lemma all_some_map {A B : Type} (f : A -> option B) (g : A -> B) (xs : list A) :
  forall ys,
    (forall x y, In x xs -> f x = Some y -> y = g x) ->
    all_some (map f xs) = Some ys -> ys = map g xs.
Proof.
  induction xs as [|x xs IH]; intros ys Hfg; simpl.
  - now intros [= <-].
  - destruct (f x) as [y|] eqn:Hx; [|discriminate].
    destruct (all_some (map f xs)) as [ys'|] eqn:Hxs; [|discriminate].
    intros [= <-]. f_equal.
    + apply Hfg; [now left | exact Hx].
    + apply IH; [|reflexivity].
      intros a b Ha Hb. apply Hfg; [now right | exact Hb].
Qed.

Lemma all_some_length {A : Type} (xs : list (option A)) (ys : list A) :
  all_some xs = Some ys -> List.length ys = List.length xs.
Proof.
  revert ys. induction xs as [|[x|] xs IH]; intros ys; simpl; try discriminate.
  - now intros [= <-].
  - destruct (all_some xs) as [ys'|]; [|discriminate].
    intros [= <-]. simpl. f_equal. now apply IH.
Qed.

Lemma all_some_Forall {A B : Type} (f : A -> option B) (xs : list A) (ys : list B) :
  all_some (map f xs) = Some ys -> Forall (fun x => f x <> None) xs.
Proof.
  revert ys. induction xs as [|x xs IH]; intros ys; simpl; [constructor|].
  destruct (f x) as [y|] eqn:Hx; [|discriminate].
  destruct (all_some (map f xs)) as [ys'|] eqn:Hxs; [|discriminate].
  intros _. constructor; [congruence | eapply IH; reflexivity].
Qed.

(** *** Every cell is visited once *)

Lemma NoDup_list_prod {A B : Type} (xs : list A) (ys : list B) :
  NoDup xs -> NoDup ys -> NoDup (list_prod xs ys).
Proof.
  intros Hxs Hys. induction Hxs as [|x xs Hnot Hxs IH]; simpl; [constructor|].
  apply NoDup_app.
  - clear -Hys. induction Hys as [|y ys Hnot Hys IH]; simpl; constructor; auto.
    rewrite in_map_iff. intros (y' & [= ->] & Hin). contradiction.
  - exact IH.
  - intros [a b] Hin1 Hin2. apply in_map_iff in Hin1 as (y & [= <- <-] & _).
    apply in_prod_iff in Hin2 as [Hin2 _]. contradiction.
Qed.

Lemma NoDup_map_on {A B : Type} (f : A -> B) (xs : list A) :
  (forall x y, In x xs -> In y xs -> f x = f y -> x = y) ->
  NoDup xs -> NoDup (map f xs).
Proof.
  intros Hinj Hxs. induction Hxs as [|x xs Hnot Hxs IH]; simpl; constructor.
  - rewrite in_map_iff. intros (y & Heq & Hin).
    apply Hinj in Heq; [subst; contradiction | now right | now left].
  - apply IH. intros a b Ha Hb. apply Hinj; now right.
Qed.

Lemma map_nth_range {A : Type} (l : list A) (d : A) :
  map (fun k => nth k l d) (seq 0 (List.length l)) = l.
Proof.
  induction l as [|x l IH]; [reflexivity|].
  simpl. f_equal. rewrite <- seq_shift, map_map. exact IH.
Qed.

Lemma list_prod_map_l {A A' B : Type} (f : A -> A') (xs : list A) (ys : list B) :
  list_prod (map f xs) ys = map (fun p => (f (fst p), snd p)) (list_prod xs ys).
Proof.
  induction xs as [|x xs IH]; [reflexivity|].
  simpl. rewrite map_app, map_map, IH. reflexivity.
Qed.

(** Row by row, the cells of rectangular data are the cells at the
    positions of its grid. *)
Lemma concat_cells (m : nat) (data : list (list value)) :
  Forall (fun row => List.length row = m) data ->
  map (cell_at data) (list_prod (seq 0 (List.length data)) (seq 0 m))
  = List.concat data.
Proof.
  induction 1 as [|row data Hrow Hdata IH]; [reflexivity|].
  cbn [List.length seq list_prod List.concat]. rewrite map_app, map_map.
  f_equal.
  - unfold cell_at. simpl. rewrite <- Hrow. apply map_nth_range.
  - rewrite <- seq_shift, list_prod_map_l, map_map. rewrite <- IH.
    apply map_ext. intros [r c]. reflexivity.
Qed.

(** When every pair of the loops addresses a cell of rectangular data, the
    cells visited are all the cells, each once. *)
Lemma visited_cells_permutation (index columns : list key) (data : list (list value))
  (cs : list value) :
  List.length data = List.length index ->
  Forall (fun row => List.length row = List.length columns) data ->
  all_some (map (addressed_cell index columns data)
              (loop_pairs (List.length index, List.length columns))) = Some cs ->
  Permutation cs (List.concat data).
Proof.
  intros Hrows Hcols Hcs. unfold loop_pairs, range_nat in *. simpl fst in *.
  simpl snd in *.
  set (pairs := list_prod (seq 0 (List.length index)) (seq 0 (List.length columns))) in *.
  set (resolve := fun ij => match cell_position index columns ij with
                            | Some rc => rc
                            | None => (O, O)
                            end).
  assert (Hall : Forall (fun ij => addressed_cell index columns data ij <> None) pairs)
    by (eapply all_some_Forall; exact Hcs).
  rewrite Forall_forall in Hall.
  assert (Hres : forall ij, In ij pairs ->
                   cell_position index columns ij = Some (resolve ij)).
  { intros ij Hin. specialize (Hall ij Hin). unfold addressed_cell, resolve in *.
    destruct (cell_position index columns ij); congruence. }
  assert (Hmap : cs = map (cell_at data) (map resolve pairs)).
  { rewrite map_map. eapply all_some_map; [|exact Hcs].
    intros ij v Hin Hv. unfold addressed_cell in Hv. rewrite (Hres ij Hin) in Hv.
    destruct (resolve ij) as [r c]. unfold grid_get in Hv. unfold cell_at. simpl.
    destruct (nth_error data r) as [row|] eqn:Hrow; [|discriminate].
    rewrite (nth_error_nth _ _ _ Hrow). symmetry. now apply nth_error_nth. }
  rewrite Hmap, <- (concat_cells (List.length columns) data Hcols), Hrows.
  apply Permutation_map. apply NoDup_Permutation_bis.
  - apply NoDup_map_on.
    + intros x y Hx Hy Heq. eapply cell_position_injective.
      * apply Hres. exact Hx.
      * rewrite Heq. apply Hres. exact Hy.
    + apply NoDup_list_prod; apply seq_NoDup.
  - rewrite length_map. apply Nat.le_refl.
  - intros rc Hin. apply in_map_iff in Hin as (ij & <- & Hin).
    destruct (cell_position_bounds index columns ij _ (Hres ij Hin)) as [Hr Hc].
    destruct (resolve ij) as [r c]. simpl in *.
    apply in_prod_iff. split; apply in_seq; lia.
Qed.

(** ** Chat formatting and request normaliser *)

Lemma prefix_append (p t : string) : prefix p (p ++ t) = true.
Proof.
  induction p as [|a p IH]; simpl; [now destruct t|].
  destruct (ascii_dec a a); [exact IH | congruence].
Qed.

Lemma contains_unfold (sub s : string) :
  contains sub s
  = (prefix sub s
     || match s with
        | EmptyString => false
        | String _ s' => contains sub s'
        end).
Proof. destruct s; reflexivity. Qed.

(** The substring test finds every occurrence. *)
Lemma contains_occurs (tag s : string) : occurs_in tag s -> contains tag s = true.
Proof.
  intros (before & after & ->). induction before as [|c before IH].
  - rewrite contains_unfold. simpl append. now rewrite prefix_append.
  - simpl. rewrite IH. apply orb_true_r.
Qed.

Lemma traverse_map {A B : Type} (f : A -> result B) (g : A -> B) (xs : list A) :
  Forall (fun x => f x = Ok (g x)) xs -> traverse f xs = Ok (map g xs).
Proof.
  induction 1 as [|x xs Hx _ IH]; simpl; [reflexivity|].
  now rewrite Hx, IH.
Qed.

Lemma tag_check_turn (tag : string) (message : json) :
  turn_content message <> None ->
  (content <- getitem message "content" ;; py_in tag content)%result
  = Ok (tag_found tag message).
Proof.
  unfold tag_found, turn_content.
  destruct (getitem message "content") as [[]|]; simpl; congruence.
Qed.

Lemma tag_checks_turns (messages : list json) :
  Forall (fun m => turn_content m <> None) messages ->
  tag_checks messages
  = Ok (List.concat (map (fun tag => map (tag_found tag) messages) SPECIAL_TAGS)).
Proof.
  intros Hturns. unfold tag_checks.
  rewrite (traverse_map _ (fun tag => map (tag_found tag) messages)); [reflexivity|].
  apply Forall_forall. intros tag _. apply traverse_map.
  eapply Forall_impl; [|exact Hturns].
  intros m Hm. now apply tag_check_turn.
Qed.

Lemma dumps_error_contains (error exception : string) :
  contains (json_escape error) (dumps_error error exception) = true
  /\ contains (json_escape exception) (dumps_error error exception) = true.
Proof.
  unfold dumps_error, json_string. split; apply contains_occurs.
  - exists ("{" ++ (quote ++ json_escape "error" ++ quote) ++ ": " ++ quote),
      (quote ++ ", " ++ (quote ++ json_escape "exception" ++ quote) ++ ": "
       ++ (quote ++ json_escape exception ++ quote) ++ "}").
    now rewrite !append_assoc.
  - exists ("{" ++ (quote ++ json_escape "error" ++ quote) ++ ": "
            ++ (quote ++ json_escape error ++ quote) ++ ", "
            ++ (quote ++ json_escape "exception" ++ quote) ++ ": " ++ quote),
      (quote ++ "}").
    now rewrite !append_assoc.
Qed.

(** * The claims *)

Example split_by_sentences :
  split_by {| delimiter := "."; chunking_n := 5 |} "ab.cd.abcdefgh"
  = Ok ["ab."; "cd."; "abcde"; "fgh."].
Proof. reflexivity. Qed.

Example split_by_flushes_empty_buffer :
  split_by {| delimiter := "."; chunking_n := 5 |} "abcdefgh.x..y"
  = Ok [""; "abcde"; "fgh."; "x.y."].
Proof. reflexivity. Qed.

Example iterate_redacts_nested :
  iterate moderated
    (VList [VStr "a"; VStr "abc. def"; VInt 3; VDict [(KStr "x", VStr "  ")]]) []
  = (Ok (VList [VStr "a"; VStr ""; VInt 3; VDict [(KStr "x", VStr "  ")]], 9),
     ["a."; "abc. def."]).
Proof. reflexivity. Qed.

(** Rows are visited in the order of their labels. *)
Example iterate_frame_permuted_labels :
  iterate moderated
    (VDataFrame [KInt 1; KInt 0] [KInt 0; KInt 1]
       [[VStr "a"; VStr "abc"]; [VStr "c"; VStr "d"]]) []
  = (Ok (VDataFrame [KInt 1; KInt 0] [KInt 0; KInt 1]
           [[VStr "a"; VStr ""]; [VStr "c"; VStr "d"]], 4),
     ["c."; "d."; "a."; "abc."]).
Proof. reflexivity. Qed.

(** A frame whose columns carry string labels is not addressable by
    [obj.at[i, j]] with integer [j]. *)
Example iterate_frame_string_labels :
  iterate moderated (VDataFrame [KInt 0] [KStr "0"] [[VStr "a"]]) []
  = (Err (KeyError (KInt 0)), []).
Proof. reflexivity. Qed.

(** C1 (as stated) fails: a text without a final delimiter comes back with
    one appended. *)
Lemma split_by_concatenation_counterexample :
  split_by default_chunking_utils "abc" = Ok ["abc."]
  /\ py_join "" ["abc."] <> "abc".
Proof. split; [reflexivity | discriminate]. Qed.

(** C1 (amended).  For every string [s], every [maxLen > 0] and every
    non-empty delimiter, [split_by] returns chunks whose concatenation, in
    order, is the concatenation of the non-empty pieces of
    [s.split(delimiter)], each followed by the delimiter.  The pieces
    themselves join back to [s]; hence the chunks reproduce [s] exactly when
    every piece is non-empty except an empty last one, that is when [s] is a
    sequence of non-empty delimiter-terminated sentences. *)
Theorem split_by_concatenation (s : string) (maxLen : Z) (delim : string) :
  0 < maxLen -> nonempty delim = true ->
  exists pieces chunks,
    py_split s delim = Ok pieces
    /\ py_join delim pieces = s
    /\ split_by {| delimiter := delim; chunking_n := maxLen |} s = Ok chunks
    /\ py_join "" chunks = py_join "" (delimited_pieces delim pieces)
    /\ forall sentences,
         pieces = (sentences ++ [""])%list -> forallb nonempty sentences = true ->
         py_join "" chunks = s.
Proof.
  intros Hlen Hdelim.
  assert (Hd : delim <> "") by (destruct delim; [discriminate | congruence]).
  destruct (split_by_spec {| delimiter := delim; chunking_n := maxLen |} s Hlen Hd)
    as (chunks & Hsplit & Hcat & _).
  simpl in Hcat.
  exists (split_from delim 0 s), chunks.
  pose proof (split_total s delim Hd) as Hpieces.
  pose proof (join_split s delim _ Hpieces) as Hjoin.
  repeat split; try assumption.
  intros sentences Hshape Hsentences.
  destruct (delimited_pieces_terminated delim sentences Hsentences) as [Hdp Hj].
  rewrite Hcat, Hshape, Hdp, <- Hj, <- Hshape. exact Hjoin.
Qed.

Lemma split_by_concatenation_witness :
  exists pieces chunks,
    py_split "a.bc." "." = Ok pieces
    /\ py_join "." pieces = "a.bc."
    /\ split_by {| delimiter := "."; chunking_n := 3 |} "a.bc." = Ok chunks
    /\ py_join "" chunks = py_join "" (delimited_pieces "." pieces)
    /\ forall sentences,
         pieces = (sentences ++ [""])%list -> forallb nonempty sentences = true ->
         py_join "" chunks = "a.bc.".
Proof. apply (split_by_concatenation "a.bc." 3 "."); [lia | reflexivity]. Defined.

(** C2.  For every string [s] and every [maxLen > 0], [split_by] returns
    (it raises only for an empty delimiter) and every chunk it returns has
    length at most [maxLen]; so has every slice that the fallback slicer
    [chunkstring] cuts out of a piece. *)
Theorem split_by_chunk_bound (s : string) (maxLen : Z) (delim : string) :
  0 < maxLen ->
  match split_by {| delimiter := delim; chunking_n := maxLen |} s with
  | Ok chunks => Forall (fun chunk => len chunk <= maxLen) chunks
  | Err _ => delim = ""
  end
  /\ exists slices,
       chunkstring s maxLen = Ok slices
       /\ Forall (fun chunk => len chunk <= maxLen) slices.
Proof.
  intros Hlen. split.
  - destruct delim as [|a delim]; [reflexivity|].
    destruct (split_by_spec {| delimiter := String a delim; chunking_n := maxLen |} s)
      as (chunks & -> & _ & Hfit); [exact Hlen | discriminate | exact Hfit].
  - destruct (chunkstring_spec s maxLen Hlen) as (slices & Hs & _ & Hfit).
    exists slices. split; assumption.
Qed.

Lemma split_by_chunk_bound_witness :
  match split_by {| delimiter := "."; chunking_n := 5 |} "ab.cd.abcdefgh" with
  | Ok chunks => Forall (fun chunk => len chunk <= 5) chunks
  | Err _ => "." = ""
  end
  /\ exists slices,
       chunkstring "ab.cd.abcdefgh" 5 = Ok slices
       /\ Forall (fun chunk => len chunk <= 5) slices.
Proof. apply (split_by_chunk_bound "ab.cd.abcdefgh" 5 "."). lia. Defined.

(** C3.  For every composite value (dictionary, list, array or DataFrame),
    [iterate] runs on the immediate children in the order it reads them;
    when they all return, it returns the composite with the children
    replaced by their results and, as severity, the maximum of the
    severities returned for the children (0 when there is no child); when
    one raises, it raises.  The children read are all the immediate children,
    each once; a DataFrame is read through the labels [0, 1, ...] of its
    shape, and [iterate] raises when one of them is not a label of the frame.
    A scalar that is not a string is returned unchanged with severity 0.
    Children are arbitrary values, so this holds at every nesting depth. *)
Theorem iterate_composite_severity (G : Globals) (obj : value) (log : call_log) :
  rectangular obj = true ->
  (is_composite obj = true -> redacts_children G obj log)
  /\ (is_plain_scalar obj = true -> iterate G obj log = (Ok (obj, 0), log)).
Proof.
  intros Hrect. split.
  - intros Hcomp. unfold redacts_children.
    destruct obj; try discriminate; cbn [visited children].
    + (* list *)
      split; [apply Permutation_refl|].
      simpl iterate. unfold mbind, mret. rewrite iterate_items_each.
      destruct (iterate_each G items log) as [[rs|e] log1] eqn:Hrs; [|reflexivity].
      eexists _, _. split; [reflexivity|]. split; [reflexivity|].
      apply fold_max_maximum. eapply iterate_each_nonneg. exact Hrs.
    + (* dictionary *)
      split; [apply Permutation_refl|].
      simpl iterate. unfold mbind, mret. rewrite iterate_entries_each.
      destruct (iterate_each G (map snd entries) log) as [[rs|e] log1] eqn:Hrs;
        [|reflexivity].
      eexists _, _. split; [reflexivity|]. split.
      * simpl. f_equal. apply snd_combine. apply iterate_each_length in Hrs.
        now rewrite !length_map in *.
      * apply fold_max_maximum. eapply iterate_each_nonneg. exact Hrs.
    + (* array *)
      split; [apply Permutation_refl|].
      simpl iterate. unfold mbind, mret. rewrite iterate_items_each.
      destruct (iterate_each G items log) as [[rs|e] log1] eqn:Hrs; [|reflexivity].
      eexists _, _. split; [reflexivity|]. split; [reflexivity|].
      apply fold_max_maximum. eapply iterate_each_nonneg. exact Hrs.
    + (* DataFrame *)
      simpl in Hrect. apply andb_prop in Hrect as [Hdata Hrows].
      apply Nat.eqb_eq in Hdata.
      assert (Hcols : Forall (fun row => List.length row = List.length columns) data).
      { apply Forall_forall. intros row Hin.
        rewrite forallb_forall in Hrows. apply Nat.eqb_eq. now apply Hrows. }
      pose proof (frame_loop G index columns data
                    (loop_pairs (List.length index, List.length columns)) data 0 log)
        as Hloop.
      destruct (all_some
                  (map (addressed_cell index columns data)
                     (loop_pairs (List.length index, List.length columns))))
        as [cs|] eqn:Hcs.
      * split; [now apply (visited_cells_permutation index columns)|].
        destruct (iterate_each G cs log) as [[rs|e] log1] eqn:Hrs.
        -- eexists _, _. split; [rewrite iterate_frame, Hloop; reflexivity|].
           split.
           ++ cbn [visited]. apply write_cells_read.
              ** apply NoDup_list_prod; apply seq_NoDup.
              ** apply iterate_each_length in Hrs. apply all_some_length in Hcs.
                 rewrite !length_map in *. congruence.
              ** eapply all_some_Forall. exact Hcs.
           ++ apply fold_max_maximum. eapply iterate_each_nonneg. exact Hrs.
        -- now rewrite iterate_frame, Hloop.
      * destruct Hloop as (e & log' & Hloop). exists e, log'.
        now rewrite iterate_frame, Hloop.
  - intros Hscalar. destruct obj; try discriminate; reflexivity.
Qed.

Lemma iterate_composite_severity_witness :
  redacts_children moderated
    (VList [VStr "a"; VStr "abc. def"; VDict [(KStr "x", VInt 3)]]) []
  /\ redacts_children moderated
       (VDataFrame [KInt 1; KInt 0] [KInt 0; KInt 1]
          [[VStr "a"; VStr "abc"]; [VStr "c"; VStr "d"]]) []
  /\ iterate moderated (VInt 3) [] = (Ok (VInt 3, 0), []).
Proof.
  split; [|split].
  - apply (iterate_composite_severity moderated
             (VList [VStr "a"; VStr "abc. def"; VDict [(KStr "x", VInt 3)]]) []);
      reflexivity.
  - apply (iterate_composite_severity moderated
             (VDataFrame [KInt 1; KInt 0] [KInt 0; KInt 1]
                [[VStr "a"; VStr "abc"]; [VStr "c"; VStr "d"]]) []);
      reflexivity.
  - apply (iterate_composite_severity moderated (VInt 3) []); reflexivity.
Defined.

(** C4.  For every string reaching [iterate] whose analysis returns a
    severity: a severity not above the threshold leaves the string unchanged,
    a severity above it replaces the string by the empty string, and the
    severity is returned beside the content in both cases. *)
Theorem iterate_string_threshold (G : Globals) (s : string) (log : call_log)
  (severity : Z) (log' : call_log) :
  analyze_text G s log = (Ok severity, log') ->
  iterate G (VStr s) log
  = (Ok (VStr (if severity <=? g_aacs_threshold G then s else ""), severity), log').
Proof.
  intros Ha. simpl. unfold mbind, mret. rewrite Ha.
  destruct (Z.ltb_spec (g_aacs_threshold G) severity) as [Hgt|Hle].
  - replace (severity <=? g_aacs_threshold G) with false
      by (symmetry; apply Z.leb_gt; lia).
    reflexivity.
  - replace (severity <=? g_aacs_threshold G) with true
      by (symmetry; apply Z.leb_le; lia).
    reflexivity.
Qed.

Lemma iterate_string_threshold_witness :
  iterate moderated (VStr "a") [] = (Ok (VStr "a", 2), ["a."])
  /\ iterate moderated (VStr "abc") [] = (Ok (VStr "", 4), ["abc."]).
Proof.
  split.
  - apply (iterate_string_threshold moderated "a" [] 2 ["a."]). reflexivity.
  - apply (iterate_string_threshold moderated "abc" [] 4 ["abc."]). reflexivity.
Defined.

(** C5 (as stated) fails on the output side: the response table of a
    text-generation request comes back as a list of row records. *)
Lemma get_safe_response_counterexample :
  get_safe_response unmoderated (VDataFrame [KInt 0] [KStr "0"] [[VStr "hi"]]) []
  = (Ok (VList [VDict [(KStr "0", VStr "hi")]]), [])
  /\ VList [VDict [(KStr "0", VStr "hi")]]
     <> VDataFrame [KInt 0] [KStr "0"] [[VStr "hi"]].
Proof. split; [reflexivity | discriminate]. Qed.

(** C5 (amended).  When no client is configured, [get_safe_input] returns
    its argument unchanged with severity 0 and [get_safe_response] returns
    the JSON-able form of its argument, [_get_jsonable_obj(result)], both
    without calling the service; the JSON-able form is the argument itself
    unless the argument is a numpy array or a DataFrame. *)
Theorem gates_bypass_without_client (G : Globals) (obj : value) (log : call_log) :
  g_aacs_client G = None ->
  get_safe_input G obj log = (Ok (obj, 0), log)
  /\ get_safe_response G obj log = (Ok (_get_jsonable_obj obj), log)
  /\ match obj with
     | VNdarray _ | VDataFrame _ _ _ => True
     | _ => _get_jsonable_obj obj = obj
     end.
Proof.
  intros Hnone. unfold get_safe_input, get_safe_response. rewrite Hnone.
  repeat split. destruct obj; exact I || reflexivity.
Qed.

Lemma gates_bypass_without_client_witness :
  get_safe_input unmoderated (VStr "some request") []
  = (Ok (VStr "some request", 0), [])
  /\ get_safe_response unmoderated (VDict [(KStr "output", VStr "text")]) []
     = (Ok (VDict [(KStr "output", VStr "text")]), []).
Proof.
  split.
  - apply (gates_bypass_without_client unmoderated (VStr "some request") []).
    reflexivity.
  - apply (gates_bypass_without_client unmoderated
             (VDict [(KStr "output", VStr "text")]) []).
    reflexivity.
Defined.

(** C6.  The chat formatting of a single user turn and of a
    system/user/assistant/user dialogue. *)
Theorem chat_formatting_examples (py_repr : json -> string) :
  get_processed_input_data_for_chat_completion py_repr
    [JDict [("role", JStr "user"); ("content", JStr "A")]]
  = Ok "<s>[INST] A [/INST]"
  /\ get_processed_input_data_for_chat_completion py_repr
       [JDict [("role", JStr "system"); ("content", JStr "S")];
        JDict [("role", JStr "user"); ("content", JStr "A")];
        JDict [("role", JStr "assistant"); ("content", JStr "B")];
        JDict [("role", JStr "user"); ("content", JStr "C")]]
     = Ok ("<s>[INST] <<SYS>>" ++ newline ++ "S" ++ newline ++ "<</SYS>>"
           ++ newline ++ newline ++ "A [/INST] B </s><s>[INST] C [/INST]").
Proof. split; reflexivity. Qed.

(** C7.  For every sequence of chat turns (dictionaries whose content is a
    string) in which the content of some turn contains one of the four
    reserved tags, the chat formatting raises the unsafe-content error, an
    [Exception] carrying [UNSAFE_ERROR], and produces no prompt. *)
Theorem chat_rejects_special_tags (py_repr : json -> string) (dialog : list json) :
  Forall (fun message => turn_content message <> None) dialog ->
  Exists (fun message =>
            exists tag content,
              In tag SPECIAL_TAGS
              /\ turn_content message = Some content
              /\ occurs_in tag content) dialog ->
  get_processed_input_data_for_chat_completion py_repr dialog
  = Err (Exception UNSAFE_ERROR).
Proof.
  intros Hturns Hunsafe.
  unfold get_processed_input_data_for_chat_completion, process_dialog.
  rewrite (tag_checks_turns dialog Hturns). cbn [rbind].
  replace (existsb (fun b => b)
             (List.concat (map (fun tag => map (tag_found tag) dialog) SPECIAL_TAGS)))
    with true; [reflexivity|].
  symmetry. apply existsb_exists. exists true. split; [|reflexivity].
  apply Exists_exists in Hunsafe as (message & Hin & tag & content & Htag & Hc & Hocc).
  apply in_concat. exists (map (tag_found tag) dialog). split.
  - apply in_map_iff. exists tag. auto.
  - apply in_map_iff. exists message. split; [|exact Hin].
    unfold tag_found. rewrite Hc. now apply contains_occurs.
Qed.

Lemma chat_rejects_special_tags_witness :
  get_processed_input_data_for_chat_completion (fun _ => "")
    [turn "user" "hello"; turn "assistant" "x <<SYS>> y"; turn "user" "bye"]
  = Err (Exception UNSAFE_ERROR).
Proof.
  apply (chat_rejects_special_tags (fun _ => "")
           [turn "user" "hello"; turn "assistant" "x <<SYS>> y"; turn "user" "bye"]).
  - repeat constructor; discriminate.
  - apply Exists_cons_tl, Exists_cons_hd.
    exists "<<SYS>>", "x <<SYS>> y". split; [simpl; auto|].
    split; [reflexivity|]. exists "x ", " y". reflexivity.
Defined.

(** C8.  For every request body that parses to a value with no object under
    [input_data] (the field is missing, or is not an object, or the body is
    not an object itself), [get_request_data] raises the validation error:
    an [Exception] whose payload is the JSON text of the expected-schema
    message and of the text of the original exception, both of which it
    contains (JSON-escaped). *)
Theorem get_request_data_rejects_input (py_repr : json -> string)
  (json_loads : string -> result json) (G : Globals)
  (request_string : string) (data : json) :
  json_loads request_string = Ok data ->
  lacks_input_object data = true ->
  exists original payload,
    parse_request py_repr json_loads G request_string = Err original
    /\ original = (if is_dict data then Exception "Invalid input data"
                   else no_attribute data "get")
    /\ payload = dumps_error EXPECTED_FORMAT (str_of_exn original)
    /\ get_request_data py_repr json_loads G request_string = Err (Exception payload)
    /\ contains (json_escape EXPECTED_FORMAT) payload = true
    /\ contains (json_escape (str_of_exn original)) payload = true.
Proof.
  intros Hloads Hlacks.
  assert (Hparse : parse_request py_repr json_loads G request_string
                   = Err (if is_dict data then Exception "Invalid input data"
                          else no_attribute data "get")).
  { unfold parse_request. rewrite Hloads. simpl rbind.
    destruct data; try reflexivity.
    simpl in *. destruct (lookup "input_data" entries) as [[]|];
      try reflexivity; discriminate. }
  eexists _, _. split; [exact Hparse|]. split; [reflexivity|].
  split; [reflexivity|]. split.
  - unfold get_request_data. now rewrite Hparse.
  - apply dumps_error_contains.
Qed.

Lemma get_request_data_rejects_input_witness :
  exists original payload,
    parse_request (fun _ => "") (fun _ => Ok (JDict [("input_data", JStr "text")]))
      moderated "{...}" = Err original
    /\ original = Exception "Invalid input data"
    /\ payload = dumps_error EXPECTED_FORMAT (str_of_exn original)
    /\ get_request_data (fun _ => "") (fun _ => Ok (JDict [("input_data", JStr "text")]))
         moderated "{...}" = Err (Exception payload)
    /\ contains (json_escape EXPECTED_FORMAT) payload = true
    /\ contains (json_escape (str_of_exn original)) payload = true.
Proof.
  apply (get_request_data_rejects_input (fun _ => "")
           (fun _ => Ok (JDict [("input_data", JStr "text")])) moderated "{...}"
           (JDict [("input_data", JStr "text")])); reflexivity.
Defined.

(** C9.  For every empty or whitespace-only text, [analyze_text] returns 0
    and leaves the log of service calls as it was, whatever client is
    configured. *)
Theorem analyze_text_whitespace (G : Globals) (text : string) (log : call_log) :
  whitespace_only text = true -> analyze_text G text log = (Ok 0, log).
Proof.
  intros Hws. unfold analyze_text.
  rewrite (strip_whitespace text Hws). simpl nonempty.
  rewrite orb_true_r. reflexivity.
Qed.

Lemma analyze_text_whitespace_witness :
  analyze_text moderated ("  " ++ newline ++ " ") ["earlier."]
  = (Ok 0, ["earlier."]).
Proof.
  apply (analyze_text_whitespace moderated ("  " ++ newline ++ " ") ["earlier."]).
  reflexivity.
Defined.

(** C10 fails in the code.  A non-empty text made of full stops only, such
    as ["."], is neither empty nor whitespace-only, yet it splits into no
    chunk, and [analyze_text] raises the [ValueError] of [max] on an empty
    list instead of returning a severity, whatever client is configured. *)
Theorem analyze_text_delimiters_only (G : Globals) (text : string) (log : call_log) :
  nonempty text = true -> only_delimiters text = true ->
  whitespace_only text = false
  /\ split_by default_chunking_utils text = Ok []
  /\ analyze_text G text log
     = (Err (ValueError "max() arg is an empty sequence"), log).
Proof.
  intros Hne Hdots. split; [|split].
  - destruct text as [|c text]; [discriminate|].
    simpl in Hdots. apply andb_prop in Hdots as [Hc _].
    apply Ascii.eqb_eq in Hc. subst c. reflexivity.
  - now apply split_by_no_chunk.
  - unfold analyze_text. rewrite (strip_delimiters text Hdots), Hne.
    cbn [negb orb]. unfold mbind, lift.
    rewrite (split_by_no_chunk text Hdots). reflexivity.
Qed.

Lemma analyze_text_delimiters_only_witness :
  whitespace_only "." = false
  /\ split_by default_chunking_utils "." = Ok []
  /\ analyze_text moderated "." []
     = (Err (ValueError "max() arg is an empty sequence"), []).
Proof. apply (analyze_text_delimiters_only moderated "." []); reflexivity. Defined.

(** * Further properties of the code *)

(** ** Induction on nested values *)

Lemma value_induction (P : value -> Prop) :
  (forall obj, is_plain_scalar obj = true -> P obj) ->
  (forall s, P (VStr s)) ->
  (forall items, Forall P items -> P (VList items)) ->
  (forall entries, Forall (fun e => P (snd e)) entries -> P (VDict entries)) ->
  (forall items, Forall P items -> P (VNdarray items)) ->
  (forall index columns data,
      Forall (Forall P) data -> P (VDataFrame index columns data)) ->
  forall obj, P obj.
Proof.
  intros Hscalar Hstr Hlist Hdict Harray Hframe.
  fix IH 1. intros obj. destruct obj.
  - now apply Hscalar.
  - now apply Hscalar.
  - now apply Hscalar.
  - now apply Hscalar.
  - apply Hstr.
  - apply Hlist. induction items as [|x xs IHxs]; constructor; [apply IH | exact IHxs].
  - apply Hdict. induction entries as [|[k x] xs IHxs]; constructor;
      [apply IH | exact IHxs].
  - apply Harray. induction items as [|x xs IHxs]; constructor; [apply IH | exact IHxs].
  - apply Hframe. induction data as [|row rows IHrows]; constructor; [|exact IHrows].
    induction row as [|x xs IHxs]; constructor; [apply IH | exact IHxs].
Qed.

Lemma redaction_refl (obj : value) : redaction_of obj obj.
Proof.
  induction obj using value_induction.
  - now apply redaction_scalar.
  - apply redaction_kept.
  - apply redaction_list. induction H; constructor; auto.
  - apply redaction_dict. induction H; constructor; auto.
  - apply redaction_array. induction H; constructor; auto.
  - apply redaction_frame. induction H as [|row rows Hrow _ IH]; constructor; auto.
    induction Hrow; constructor; auto.
Qed.

(** ** What the redactor keeps *)

(** Every result of [iterate_each] is the result of [iterate] on the object
    at the same place. *)
Lemma iterate_each_results (G : Globals) (objs : list value) :
  forall log rs log',
    iterate_each G objs log = (Ok rs, log') ->
    Forall2 (fun obj r => exists l l', iterate G obj l = (Ok r, l')) objs rs.
Proof.
  induction objs as [|obj objs IH]; intros log rs log'; simpl; run_m.
  - intros [= <- _]. constructor.
  - destruct (iterate G obj log) as [[r|e] log1] eqn:Hobj; [|discriminate].
    destruct (iterate_each G objs log1) as [[rs'|e] log2] eqn:Hobjs; [|discriminate].
    intros [= <- _]. constructor; [eauto | eapply IH; exact Hobjs].
Qed.

Lemma Forall2_nth_error {A B : Type} (R : A -> B -> Prop) (l : list A) (l' : list B) :
  Forall2 R l l' ->
  forall n x, nth_error l n = Some x ->
  exists y, nth_error l' n = Some y /\ R x y.
Proof.
  induction 1 as [|a b l l' Hab _ IH]; intros [|n] x; simpl; try discriminate.
  - intros [= <-]. eauto.
  - apply IH.
Qed.

Lemma Forall2_list_set {A B : Type} (R : A -> B -> Prop) (l : list A) (l' : list B)
  (n : nat) (x : A) (y : B) :
  Forall2 R l l' -> nth_error l n = Some x -> R x y ->
  Forall2 R l (list_set l' n y).
Proof.
  intros H. revert n. induction H as [|a b l l' Hab Hl IH]; intros [|n]; simpl;
    try discriminate.
  - intros [= <-] Hxy. now constructor.
  - intros Hn Hxy. constructor; auto.
Qed.

Lemma Forall2_grid_set {A B : Type} (R : A -> B -> Prop) (g : list (list A))
  (g' : list (list B)) (r c : nat) (x : A) (y : B) :
  Forall2 (Forall2 R) g g' -> grid_get g r c = Some x -> R x y ->
  Forall2 (Forall2 R) g (grid_set g' r c y).
Proof.
  intros Hg Hx Hxy. unfold grid_get in Hx. unfold grid_set.
  destruct (nth_error g r) as [row|] eqn:Hrow; [|discriminate].
  destruct (Forall2_nth_error _ _ _ Hg r row Hrow) as (row' & -> & Hrows).
  eapply Forall2_list_set; [exact Hg | exact Hrow |].
  eapply Forall2_list_set; eassumption.
Qed.

Lemma addressed_cell_in (index columns : list key) (data : list (list value))
  (ij : nat * nat) (x : value) :
  addressed_cell index columns data ij = Some x ->
  exists r c, cell_position index columns ij = Some (r, c)
              /\ grid_get data r c = Some x.
Proof.
  unfold addressed_cell.
  destruct (cell_position index columns ij) as [[r c]|]; [|discriminate].
  eauto.
Qed.

Lemma grid_get_Forall {A : Type} (P : A -> Prop) (g : list (list A)) (r c : nat) (x : A) :
  Forall (Forall P) g -> grid_get g r c = Some x -> P x.
Proof.
  intros Hg. unfold grid_get.
  destruct (nth_error g r) as [row|] eqn:Hrow; [|discriminate].
  intros Hx. apply nth_error_In in Hrow, Hx.
  rewrite Forall_forall in Hg. specialize (Hg row Hrow).
  rewrite Forall_forall in Hg. now apply Hg.
Qed.

(** Writing related values over the addressed cells keeps the data related
    cell by cell. *)
Lemma write_cells_related (R : value -> value -> Prop) (index columns : list key)
  (data : list (list value)) (pairs : list (nat * nat)) :
  forall cs vs cur,
    all_some (map (addressed_cell index columns data) pairs) = Some cs ->
    Forall2 R cs vs ->
    Forall2 (Forall2 R) data cur ->
    Forall2 (Forall2 R) data (write_cells index columns cur pairs vs).
Proof.
  induction pairs as [|ij pairs IH]; intros cs vs cur Hcs Hvs Hcur; [exact Hcur|].
  cbn [map all_some] in Hcs.
  destruct (addressed_cell index columns data ij) as [x|] eqn:Hx; [|discriminate].
  destruct (all_some (map (addressed_cell index columns data) pairs)) as [cs'|] eqn:Hcs';
    [|discriminate].
  injection Hcs as <-. inversion Hvs as [|? v ? vs' Hxv Hvs']; subst.
  apply addressed_cell_in in Hx as (r & c & Hpos & Hget).
  cbn [write_cells]. rewrite Hpos.
  eapply IH; [reflexivity | exact Hvs' |].
  eapply Forall2_grid_set; eassumption.
Qed.

Lemma all_some_cells (P : value -> Prop) (index columns : list key)
  (data : list (list value)) (pairs : list (nat * nat)) :
  Forall (Forall P) data ->
  forall cs,
    all_some (map (addressed_cell index columns data) pairs) = Some cs ->
    Forall P cs.
Proof.
  intros Hdata. induction pairs as [|ij pairs IH]; intros cs; cbn [map all_some].
  - intros [= <-]. constructor.
  - destruct (addressed_cell index columns data ij) as [x|] eqn:Hx; [|discriminate].
    destruct (all_some (map (addressed_cell index columns data) pairs)) as [cs'|];
      [|discriminate].
    intros [= <-]. constructor; [|now apply IH].
    apply addressed_cell_in in Hx as (r & c & _ & Hget).
    eapply grid_get_Forall; eassumption.
Qed.

(** What [iterate] returns for a DataFrame, when it returns. *)
Lemma iterate_frame_returns (G : Globals) (index columns : list key)
  (data : list (list value)) (log : call_log) (obj' : value) (severity : Z)
  (log' : call_log) :
  iterate G (VDataFrame index columns data) log = (Ok (obj', severity), log') ->
  exists cs rs,
    all_some (map (addressed_cell index columns data)
                (loop_pairs (List.length index, List.length columns))) = Some cs
    /\ iterate_each G cs log = (Ok rs, log')
    /\ obj' = VDataFrame index columns
                (write_cells index columns data
                   (loop_pairs (List.length index, List.length columns))
                   (map fst rs))
    /\ severity = fold_left Z.max (map snd rs) 0.
Proof.
  rewrite iterate_frame.
  pose proof (frame_loop G index columns data
                (loop_pairs (List.length index, List.length columns)) data 0 log)
    as Hloop.
  destruct (all_some _) as [cs|].
  - rewrite Hloop.
    destruct (iterate_each G cs log) as [[rs|e] log1] eqn:Hrs; [|discriminate].
    intros [= <- <- <-]. exists cs, rs. repeat split. exact Hrs.
  - destruct Hloop as (e & l & ->). discriminate.
Qed.

Lemma results_related (G : Globals) (R : value -> value -> Prop) (objs : list value) :
  Forall (fun obj => forall log obj' severity log',
              iterate G obj log = (Ok (obj', severity), log') -> R obj obj') objs ->
  forall log rs log',
    iterate_each G objs log = (Ok rs, log') ->
    Forall2 R objs (map fst rs).
Proof.
  intros Hobjs log rs log' Hrs. apply iterate_each_results in Hrs.
  induction Hrs as [|obj [obj' s] objs rs (l & l' & Hobj) _ IH]; simpl;
    [constructor|].
  inversion Hobjs; subst. constructor; eauto.
Qed.

(** X1.  Whatever [iterate] returns for an object is the object with some of
    its strings replaced by the empty string: scalars, dictionary keys,
    labels, lengths and nesting are those of the argument. *)
Theorem iterate_preserves_structure (G : Globals) (obj : value) :
  forall log obj' severity log',
    iterate G obj log = (Ok (obj', severity), log') ->
    redaction_of obj obj'.
Proof.
  induction obj as [obj Hscalar|s|items IH|entries IH|items IH|index columns data IH]
    using value_induction; intros log obj' severity log'.
  - destruct obj; try discriminate; simpl; unfold mret; intros [= <- _ _];
      now apply redaction_scalar.
  - simpl. run_m. destruct (analyze_text G s log) as [[sev|e] log1]; [|discriminate].
    destruct (g_aacs_threshold G <? sev); intros [= <- _ _];
      [apply redaction_removed | apply redaction_kept].
  - simpl. run_m. rewrite iterate_items_each.
    destruct (iterate_each G items log) as [[rs|e] log1] eqn:Hrs; [|discriminate].
    intros [= <- _ _]. apply redaction_list.
    eapply results_related; eassumption.
  - simpl. run_m. rewrite iterate_entries_each.
    destruct (iterate_each G (map snd entries) log) as [[rs|e] log1] eqn:Hrs;
      [|discriminate].
    intros [= <- _ _]. apply redaction_dict.
    assert (Hrel : Forall2 redaction_of (map snd entries) (map fst rs)).
    { eapply results_related; [|exact Hrs]. now apply Forall_map. }
    clear -Hrel. revert Hrel. generalize (map fst rs) as vs.
    induction entries as [|[k v] entries IHe]; intros vs Hrel;
      inversion Hrel; subst; simpl; constructor; auto.
  - simpl. run_m. rewrite iterate_items_each.
    destruct (iterate_each G items log) as [[rs|e] log1] eqn:Hrs; [|discriminate].
    intros [= <- _ _]. apply redaction_array.
    eapply results_related; eassumption.
  - intros Hrun. apply iterate_frame_returns in Hrun
      as (cs & rs & Hcs & Hrs & -> & _).
    apply redaction_frame.
    eapply write_cells_related; [exact Hcs | |].
    + eapply results_related; [|exact Hrs].
      eapply all_some_cells; [exact IH | exact Hcs].
    + clear. induction data as [|row rows IHrows]; constructor; auto.
      induction row; constructor; auto using redaction_refl.
Qed.

Lemma list_set_same_value {A : Type} (l : list A) (n : nat) (x : A) :
  nth_error l n = Some x -> list_set l n x = l.
Proof.
  revert n. induction l as [|y l IH]; intros [|n]; simpl; try discriminate.
  - now intros [= ->].
  - intros H. f_equal. now apply IH.
Qed.

Lemma grid_set_same_value {A : Type} (g : list (list A)) (r c : nat) (x : A) :
  grid_get g r c = Some x -> grid_set g r c x = g.
Proof.
  unfold grid_get, grid_set. destruct (nth_error g r) as [row|] eqn:Hrow;
    [|discriminate].
  intros Hx. rewrite (list_set_same_value row c x Hx).
  now apply list_set_same_value.
Qed.

(** Writing back the cells that were read changes nothing. *)
Lemma write_cells_same (index columns : list key) (data : list (list value))
  (pairs : list (nat * nat)) (cs : list value) :
  all_some (map (addressed_cell index columns data) pairs) = Some cs ->
  write_cells index columns data pairs cs = data.
Proof.
  revert cs. induction pairs as [|ij pairs IH]; intros cs; cbn [map all_some].
  - now intros [= <-].
  - destruct (addressed_cell index columns data ij) as [x|] eqn:Hx; [|discriminate].
    destruct (all_some (map (addressed_cell index columns data) pairs)) as [cs'|];
      [|discriminate].
    intros [= <-]. apply addressed_cell_in in Hx as (r & c & Hpos & Hget).
    cbn [write_cells]. rewrite Hpos, (grid_set_same_value data r c x Hget).
    now apply IH.
Qed.

Lemma combine_fst_snd {A B : Type} (l : list (A * B)) :
  combine (map fst l) (map snd l) = l.
Proof. induction l as [|[a b] l IH]; simpl; [reflexivity | now rewrite IH]. Qed.

Lemma fold_max_bound (xs : list Z) (t : Z) :
  fold_left Z.max xs 0 <= t -> Forall (fun s => s <= t) xs.
Proof.
  intros Hmax. destruct (fold_max_spec xs 0) as [Hall _].
  eapply Forall_impl; [|exact Hall]. simpl. intros s Hs. lia.
Qed.

Lemma results_unchanged (G : Globals) (objs : list value) :
  Forall (fun obj => forall log obj' severity log',
              iterate G obj log = (Ok (obj', severity), log') ->
              severity <= g_aacs_threshold G -> obj' = obj) objs ->
  forall log rs log',
    iterate_each G objs log = (Ok rs, log') ->
    fold_left Z.max (map snd rs) 0 <= g_aacs_threshold G ->
    map fst rs = objs.
Proof.
  intros Hobjs log rs log' Hrs Hmax.
  apply fold_max_bound in Hmax. apply iterate_each_results in Hrs.
  induction Hrs as [|obj [obj' s] objs rs (l & l' & Hobj) _ IH]; [reflexivity|].
  inversion Hobjs as [|? ? Hhead Htail]; subst.
  inversion Hmax as [|? ? Hs Hrest]; subst. simpl. f_equal.
  - eapply Hhead; [exact Hobj | exact Hs].
  - now apply IH.
Qed.

(** X2.  When the severity that [iterate] returns is not above the
    threshold, nothing was removed: the object returned is the argument. *)
Theorem iterate_below_threshold_unchanged (G : Globals) (obj : value) :
  forall log obj' severity log',
    iterate G obj log = (Ok (obj', severity), log') ->
    severity <= g_aacs_threshold G ->
    obj' = obj.
Proof.
  induction obj as [obj Hscalar|s|items IH|entries IH|items IH|index columns data IH]
    using value_induction; intros log obj' severity log'.
  - destruct obj; try discriminate; simpl; unfold mret; now intros [= <- _ _].
  - simpl. run_m. destruct (analyze_text G s log) as [[sev|e] log1]; [|discriminate].
    destruct (Z.ltb_spec (g_aacs_threshold G) sev); intros [= <- <- _] Hle;
      [lia | reflexivity].
  - simpl. run_m. rewrite iterate_items_each.
    destruct (iterate_each G items log) as [[rs|e] log1] eqn:Hrs; [|discriminate].
    intros [= <- <- _] Hle. f_equal. eapply results_unchanged; eassumption.
  - simpl. run_m. rewrite iterate_entries_each.
    destruct (iterate_each G (map snd entries) log) as [[rs|e] log1] eqn:Hrs;
      [|discriminate].
    intros [= <- <- _] Hle. f_equal.
    rewrite (results_unchanged G (map snd entries)) with (log := log) (log' := log1);
      [apply combine_fst_snd | now apply Forall_map | exact Hrs | exact Hle].
  - simpl. run_m. rewrite iterate_items_each.
    destruct (iterate_each G items log) as [[rs|e] log1] eqn:Hrs; [|discriminate].
    intros [= <- <- _] Hle. f_equal. eapply results_unchanged; eassumption.
  - intros Hrun Hle. apply iterate_frame_returns in Hrun
      as (cs & rs & Hcs & Hrs & -> & ->).
    f_equal.
    rewrite (results_unchanged G cs) with (log := log) (log' := log');
      [now apply write_cells_same | | exact Hrs | exact Hle].
    eapply all_some_cells; [exact IH | exact Hcs].
Qed.

Lemma iterate_below_threshold_unchanged_witness :
  iterate moderated (VList [VStr "a"; VDict [(KStr "x", VStr "b")]]) []
  = (Ok (VList [VStr "a"; VDict [(KStr "x", VStr "b")]], 2), ["a."; "b."])
  /\ VList [VStr "a"; VDict [(KStr "x", VStr "b")]]
     = VList [VStr "a"; VDict [(KStr "x", VStr "b")]].
Proof.
  split; [reflexivity|].
  apply (iterate_below_threshold_unchanged moderated
           (VList [VStr "a"; VDict [(KStr "x", VStr "b")]]) []
           (VList [VStr "a"; VDict [(KStr "x", VStr "b")]]) 2 ["a."; "b."]);
    [reflexivity | simpl; lia].
Defined.

Lemma iterate_preserves_structure_witness :
  redaction_of
    (VList [VStr "a"; VStr "abc. def"; VDict [(KStr "x", VInt 3)]])
    (VList [VStr "a"; VStr ""; VDict [(KStr "x", VInt 3)]]).
Proof.
  apply (iterate_preserves_structure moderated
           (VList [VStr "a"; VStr "abc. def"; VDict [(KStr "x", VInt 3)]]) []
           (VList [VStr "a"; VStr ""; VDict [(KStr "x", VInt 3)]]) 9
           ["a."; "abc. def."]).
  reflexivity.
Defined.

(** ** Generator parameters *)

Lemma lookup_dict_set (k k' : string) (v : json) (d : list (string * json)) :
  lookup k' (dict_set k v d) = if String.eqb k' k then Some v else lookup k' d.
Proof.
  induction d as [|[k0 v0] d IH]; simpl.
  - destruct (String.eqb k' k); reflexivity.
  - destruct (String.eqb_spec k k0) as [<-|Hk0]; simpl.
    + destruct (String.eqb k' k); reflexivity.
    + rewrite IH. destruct (String.eqb_spec k' k0) as [->|]; [|reflexivity].
      destruct (String.eqb_spec k0 k); congruence.
Qed.

Lemma lookup_filter_key (k k' : string) (d : list (string * json)) :
  lookup k' (filter (fun kv => negb (String.eqb k (fst kv))) d)
  = if String.eqb k' k then None else lookup k' d.
Proof.
  induction d as [|[k0 v0] d IH]; simpl.
  - destruct (String.eqb k' k); reflexivity.
  - destruct (String.eqb_spec k k0) as [<-|Hk0]; simpl.
    + rewrite IH. destruct (String.eqb k' k); reflexivity.
    + rewrite IH. destruct (String.eqb_spec k' k0) as [->|]; [|reflexivity].
      destruct (String.eqb_spec k0 k); congruence.
Qed.

Lemma dict_set_fresh (k : string) (v : json) (d : list (string * json)) :
  dict_contains k d = false -> dict_set k v d = (d ++ [(k, v)])%list.
Proof.
  unfold dict_contains. induction d as [|[k0 v0] d IH]; simpl; [reflexivity|].
  destruct (String.eqb k k0); [discriminate|].
  intros H. now rewrite IH.
Qed.

Lemma dict_contains_app (k : string) (d d' : list (string * json)) :
  dict_contains k (d ++ d') = dict_contains k d || dict_contains k d'.
Proof.
  unfold dict_contains. induction d as [|[k0 v0] d IH]; simpl; [reflexivity|].
  destruct (String.eqb k k0); [reflexivity | exact IH].
Qed.

(** Updating with a dictionary whose keys are new appends its entries. *)
Lemma dict_update_fresh (other : list (string * json)) :
  distinct_keys other = true ->
  forall d,
    (forall k, dict_contains k other = true -> dict_contains k d = false) ->
    dict_update d other = (d ++ other)%list.
Proof.
  unfold dict_update.
  induction other as [|[k v] other IH]; intros Hdistinct d Hfresh; simpl.
  - now rewrite app_nil_r.
  - simpl in Hdistinct. apply andb_prop in Hdistinct as [Hk Hother].
    apply negb_true_iff in Hk.
    rewrite dict_set_fresh.
    + rewrite IH; [now rewrite <- List.app_assoc | exact Hother |].
      intros k' Hk'. rewrite dict_contains_app. apply orb_false_iff. split.
      * apply Hfresh. unfold dict_contains in *. simpl.
        destruct (String.eqb k' k); [reflexivity | exact Hk'].
      * unfold dict_contains. simpl.
        destruct (String.eqb_spec k' k) as [->|]; [congruence | reflexivity].
    + apply Hfresh. unfold dict_contains. simpl. now rewrite String.eqb_refl.
Qed.

Lemma dict_contains_set (k k' : string) (v : json) (d : list (string * json)) :
  dict_contains k' (dict_set k v d) = String.eqb k' k || dict_contains k' d.
Proof.
  unfold dict_contains. rewrite lookup_dict_set.
  destruct (String.eqb k' k); reflexivity.
Qed.

Lemma distinct_keys_set (k : string) (v : json) (d : list (string * json)) :
  distinct_keys d = true -> distinct_keys (dict_set k v d) = true.
Proof.
  induction d as [|[k0 v0] d IH]; simpl; [reflexivity|].
  intros H. apply andb_prop in H as [Hk0 Hd].
  destruct (String.eqb_spec k k0) as [<-|Hne]; simpl.
  - now rewrite Hk0, Hd.
  - rewrite dict_contains_set, (IH Hd).
    apply negb_true_iff in Hk0. rewrite Hk0.
    destruct (String.eqb_spec k0 k); [congruence | reflexivity].
Qed.

Lemma distinct_keys_filter (f : string * json -> bool) (d : list (string * json)) :
  distinct_keys d = true -> distinct_keys (filter f d) = true.
Proof.
  assert (Hsub : forall k d, dict_contains k d = false ->
                             dict_contains k (filter f d) = false).
  { intros k d0. unfold dict_contains.
    induction d0 as [|[k0 v0] d0 IH]; simpl; [reflexivity|].
    destruct (String.eqb k k0) eqn:Hk; [discriminate|].
    intros H. destruct (f (k0, v0)); simpl; [rewrite Hk|]; now apply IH. }
  induction d as [|[k0 v0] d IH]; simpl; [reflexivity|].
  intros H. apply andb_prop in H as [Hk0 Hd]. apply negb_true_iff in Hk0.
  destruct (f (k0, v0)); simpl; [|now apply IH].
  now rewrite (Hsub _ _ Hk0), (IH Hd).
Qed.

Lemma dict_update_empty (d : list (string * json)) :
  distinct_keys d = true -> dict_update [] d = d.
Proof. intros H. now rewrite dict_update_fresh. Qed.

Lemma generator_params_renamed (params : list (string * json)) (v : json) :
  distinct_keys params = true ->
  lookup "max_gen_len" params = Some v ->
  exists updated,
    get_generator_params params = Ok updated
    /\ lookup "max_new_tokens" updated = Some v
    /\ lookup "max_gen_len" updated = None
    /\ forall k, k <> "max_gen_len" -> k <> "max_new_tokens" ->
                 lookup k updated = lookup k params.
Proof.
  intros Hdistinct Hv. unfold get_generator_params, dict_del, dict_contains.
  rewrite Hv. simpl getitem. rewrite Hv. cbn [rbind].
  rewrite lookup_dict_set.
  replace (String.eqb "max_gen_len" "max_new_tokens") with false by reflexivity.
  rewrite Hv. cbn [rbind].
  rewrite dict_update_empty
    by (apply distinct_keys_filter, distinct_keys_set, Hdistinct).
  eexists. split; [reflexivity|]. repeat split.
  - rewrite lookup_filter_key, lookup_dict_set. reflexivity.
  - rewrite lookup_filter_key. reflexivity.
  - intros k Hk1 Hk2. rewrite lookup_filter_key, lookup_dict_set.
    destruct (String.eqb_spec k "max_gen_len"); [congruence|].
    destruct (String.eqb_spec k "max_new_tokens"); [congruence | reflexivity].
Qed.

(** X3.  A deprecated [max_gen_len] is renamed: the parameters returned
    give its value to [max_new_tokens] (whatever [max_new_tokens] held
    before), no longer have the key [max_gen_len], and keep every other
    entry. *)
Theorem get_generator_params_renames (params : list (string * json)) (v : json) :
  distinct_keys params = true ->
  lookup "max_gen_len" params = Some v ->
  exists updated,
    get_generator_params params = Ok updated
    /\ lookup "max_new_tokens" updated = Some v
    /\ lookup "max_gen_len" updated = None
    /\ forall k, k <> "max_gen_len" -> k <> "max_new_tokens" ->
                 lookup k updated = lookup k params.
Proof. apply generator_params_renamed. Qed.

Lemma get_generator_params_renames_witness :
  exists updated,
    get_generator_params
      [("max_gen_len", JInt 50); ("top_p", JInt 1); ("max_new_tokens", JInt 9)]
    = Ok updated
    /\ lookup "max_new_tokens" updated = Some (JInt 50)
    /\ lookup "max_gen_len" updated = None
    /\ forall k, k <> "max_gen_len" -> k <> "max_new_tokens" ->
                 lookup k updated
                 = lookup k [("max_gen_len", JInt 50); ("top_p", JInt 1);
                             ("max_new_tokens", JInt 9)].
Proof.
  apply (get_generator_params_renames
           [("max_gen_len", JInt 50); ("top_p", JInt 1); ("max_new_tokens", JInt 9)]
           (JInt 50)); reflexivity.
Defined.

(** X4.  Parameters without [max_gen_len] are returned as they are, and
    normalising parameters a second time changes nothing. *)
Theorem get_generator_params_stable (params : list (string * json)) :
  distinct_keys params = true ->
  (lookup "max_gen_len" params = None -> get_generator_params params = Ok params)
  /\ forall updated,
       get_generator_params params = Ok updated ->
       get_generator_params updated = Ok updated.
Proof.
  intros Hdistinct.
  assert (Habsent : forall d, distinct_keys d = true ->
                      lookup "max_gen_len" d = None ->
                      get_generator_params d = Ok d).
  { intros d Hd Hnone. unfold get_generator_params, dict_contains.
    rewrite Hnone. cbn [rbind]. now rewrite dict_update_empty. }
  split; [now apply Habsent|].
  intros updated Hrun.
  destruct (lookup "max_gen_len" params) as [v|] eqn:Hv.
  - destruct (generator_params_renamed params v Hdistinct Hv)
      as (updated' & Hrun' & _ & Hnone & _).
    rewrite Hrun in Hrun'. injection Hrun' as <-.
    apply Habsent; [|exact Hnone].
    revert Hrun. unfold get_generator_params, dict_del, dict_contains.
    rewrite Hv. simpl getitem. rewrite Hv. cbn [rbind].
    rewrite lookup_dict_set.
  replace (String.eqb "max_gen_len" "max_new_tokens") with false by reflexivity.
  rewrite Hv. cbn [rbind].
    rewrite dict_update_empty
      by (apply distinct_keys_filter, distinct_keys_set, Hdistinct).
    intros [= <-]. apply distinct_keys_filter, distinct_keys_set, Hdistinct.
  - rewrite (Habsent params Hdistinct Hv) in Hrun. injection Hrun as <-.
    now apply Habsent.
Qed.

Lemma get_generator_params_stable_witness :
  (lookup "max_gen_len" [("top_p", JInt 1); ("max_new_tokens", JInt 9)] = None ->
   get_generator_params [("top_p", JInt 1); ("max_new_tokens", JInt 9)]
   = Ok [("top_p", JInt 1); ("max_new_tokens", JInt 9)])
  /\ forall updated,
       get_generator_params [("top_p", JInt 1); ("max_new_tokens", JInt 9)]
       = Ok updated ->
       get_generator_params updated = Ok updated.
Proof.
  apply (get_generator_params_stable [("top_p", JInt 1); ("max_new_tokens", JInt 9)]).
  reflexivity.
Defined.

(** ** Severity analyzer *)

(** X5.  The severity of a response is the largest of 0 and the severities
    of the categories present: it is never negative, it is at least every
    severity present, and it is 0 or one of them. *)
Theorem analyze_response_maximum (response : AnalyzeTextResult) :
  let present :=
    (List.concat
       (map (fun category => match category with Some s => [s] | None => [] end)
          [hate_result response; self_harm_result response;
           sexual_result response; violence_result response])) in
  0 <= analyze_response response
  /\ Forall (fun s => s <= analyze_response response) present
  /\ (analyze_response response = 0 \/ In (analyze_response response) present).
Proof.
  unfold analyze_response.
  destruct (hate_result response) as [h|], (self_harm_result response) as [sh|],
    (sexual_result response) as [sx|], (violence_result response) as [vi|];
    simpl; (split; [lia|]);
    (split; [repeat (constructor; [lia|]); constructor | lia]).
Qed.






(** ** Request normaliser *)

(** X7.  For a task other than chat-completion, [get_request_data] accepts
    exactly the bodies that are an object whose [input_data] is an object
    with a list under [input_string] and, if present, an object under
    [parameters]; it returns that list and those parameters, the empty
    object when there are none. *)
Theorem get_request_data_accepts (py_repr : json -> string)
  (json_loads : string -> result json) (G : Globals) (request_string : string)
  (data query params : json) :
  String.eqb (task_type G) CHAT_COMPLETION = false ->
  json_loads request_string = Ok data ->
  get_request_data py_repr json_loads G request_string = Ok (query, params)
  <-> exists entries inputs items,
        data = JDict entries
        /\ lookup "input_data" entries = Some (JDict inputs)
        /\ lookup "input_string" inputs = Some (JList items)
        /\ query = JList items
        /\ params = match lookup "parameters" inputs with
                    | Some v => v
                    | None => JDict []
                    end
        /\ is_dict params = true.
Proof.
  intros Htask Hloads. unfold get_request_data, parse_request.
  rewrite Hloads, Htask. cbn [rbind]. split.
  - destruct data; try discriminate. simpl py_get.
    destruct (lookup "input_data" entries) as [inputs|] eqn:Hinputs;
      cbn [rbind]; [|discriminate].
    destruct inputs as [| | | | |items|inputs]; try discriminate.
    cbn [is_dict negb]. simpl getitem.
    destruct (lookup "input_string" inputs) as [input_data|] eqn:Hquery;
      cbn [rbind]; [|discriminate].
    simpl py_get.
    destruct (lookup "parameters" inputs) as [p|] eqn:Hparams; cbn [rbind];
      destruct input_data as [| | | | |items|]; cbn [is_list negb];
      try discriminate.
    + destruct (is_dict p) eqn:Hp; cbn [negb]; [|discriminate].
      intros [= <- <-]. exists entries, inputs, items.
      rewrite Hparams. auto 7.
    + cbn [is_dict negb]. intros [= <- <-]. exists entries, inputs, items.
      rewrite Hparams. auto 7.
  - intros (entries & inputs & items & -> & Hinputs & Hquery & -> & -> & Hdict).
    simpl py_get. rewrite Hinputs. cbn [rbind is_dict negb]. simpl getitem.
    rewrite Hquery. cbn [rbind]. simpl py_get.
    destruct (lookup "parameters" inputs) as [p|]; cbn [rbind is_list negb].
    + now rewrite Hdict.
    + reflexivity.
Qed.

Lemma get_request_data_accepts_witness :
  get_request_data (fun _ => "")
    (fun _ => Ok (JDict [("input_data", JDict [("input_string", JList [JStr "a"])])]))
    moderated "{...}" = Ok (JList [JStr "a"], JDict [])
  <-> exists entries inputs items,
        JDict [("input_data", JDict [("input_string", JList [JStr "a"])])]
        = JDict entries
        /\ lookup "input_data" entries = Some (JDict inputs)
        /\ lookup "input_string" inputs = Some (JList items)
        /\ JList [JStr "a"] = JList items
        /\ JDict [] = match lookup "parameters" inputs with
                      | Some v => v
                      | None => JDict []
                      end
        /\ is_dict (JDict []) = true.
Proof.
  apply (get_request_data_accepts (fun _ => "")
           (fun _ => Ok (JDict [("input_data",
                                 JDict [("input_string", JList [JStr "a"])])]))
           moderated "{...}"); reflexivity.
Defined.

(** X8.  When [input_data] is an object, the validation error reports: the
    quoted key ['input_string'] when that key is missing, [query is not a
    list] when [input_string] is not a list, and [parameters is not a dict]
    when the query is a list but [parameters] is not an object. *)
Theorem get_request_data_field_errors (py_repr : json -> string)
  (json_loads : string -> result json) (G : Globals) (request_string : string)
  (entries inputs : list (string * json)) :
  json_loads request_string = Ok (JDict entries) ->
  lookup "input_data" entries = Some (JDict inputs) ->
  (lookup "input_string" inputs = None ->
   get_request_data py_repr json_loads G request_string
   = Err (Exception (dumps_error EXPECTED_FORMAT "'input_string'")))
  /\ (forall query,
        lookup "input_string" inputs = Some query -> is_list query = false ->
        get_request_data py_repr json_loads G request_string
        = Err (Exception (dumps_error EXPECTED_FORMAT "query is not a list")))
  /\ (forall query params,
        lookup "input_string" inputs = Some query -> is_list query = true ->
        lookup "parameters" inputs = Some params -> is_dict params = false ->
        get_request_data py_repr json_loads G request_string
        = Err (Exception (dumps_error EXPECTED_FORMAT "parameters is not a dict"))).
Proof.
  intros Hloads Hinputs. unfold get_request_data, parse_request.
  rewrite Hloads. cbn [rbind]. simpl py_get. rewrite Hinputs.
  cbn [rbind is_dict negb]. simpl getitem. simpl py_get.
  split; [|split].
  - intros ->. reflexivity.
  - intros query -> Hlist. cbn [rbind].
    destruct (lookup "parameters" inputs); cbn [rbind]; now rewrite Hlist.
  - intros query params -> Hlist -> Hdict. cbn [rbind]. now rewrite Hlist, Hdict.
Qed.

Lemma get_request_data_field_errors_witness :
  get_request_data (fun _ => "")
    (fun _ => Ok (JDict [("input_data", JDict [("parameters", JDict [])])]))
    moderated "{...}"
  = Err (Exception (dumps_error EXPECTED_FORMAT "'input_string'")).
Proof.
  apply (get_request_data_field_errors (fun _ => "")
           (fun _ => Ok (JDict [("input_data", JDict [("parameters", JDict [])])]))
           moderated "{...}"
           [("input_data", JDict [("parameters", JDict [])])]
           [("parameters", JDict [])]); reflexivity.
Defined.

(** A dialogue of turns, one of which contains a reserved tag, is refused. *)
Lemma unsafe_dialog_refused (py_repr : json -> string) (dialog : list json) :
  Forall (fun message => turn_content message <> None) dialog ->
  Exists (fun message =>
            exists tag content,
              In tag SPECIAL_TAGS
              /\ turn_content message = Some content
              /\ occurs_in tag content) dialog ->
  get_processed_input_data_for_chat_completion py_repr dialog
  = Err (Exception UNSAFE_ERROR).
Proof.
  intros Hturns Hunsafe.
  unfold get_processed_input_data_for_chat_completion, process_dialog.
  rewrite (tag_checks_turns dialog Hturns). cbn [rbind].
  replace (existsb (fun b => b)
             (List.concat (map (fun tag => map (tag_found tag) dialog) SPECIAL_TAGS)))
    with true; [reflexivity|].
  symmetry. apply existsb_exists. exists true. split; [|reflexivity].
  apply Exists_exists in Hunsafe as (message & Hin & tag & content & Htag & Hc & Hocc).
  apply in_concat. exists (map (tag_found tag) dialog). split.
  - apply in_map_iff. exists tag. auto.
  - apply in_map_iff. exists message. split; [|exact Hin].
    unfold tag_found. rewrite Hc. now apply contains_occurs.
Qed.

(** X9.  A chat-completion request whose dialogue contains a reserved tag
    is answered with the validation error, whose exception text is the
    message of [UNSAFE_ERROR]. *)
Theorem get_request_data_refuses_tags (py_repr : json -> string)
  (json_loads : string -> result json) (G : Globals) (request_string : string)
  (entries inputs : list (string * json)) (dialog : list json) :
  String.eqb (task_type G) CHAT_COMPLETION = true ->
  json_loads request_string = Ok (JDict entries) ->
  lookup "input_data" entries = Some (JDict inputs) ->
  lookup "input_string" inputs = Some (JList dialog) ->
  is_dict match lookup "parameters" inputs with
          | Some v => v
          | None => JDict []
          end = true ->
  Forall (fun message => turn_content message <> None) dialog ->
  Exists (fun message =>
            exists tag content,
              In tag SPECIAL_TAGS
              /\ turn_content message = Some content
              /\ occurs_in tag content) dialog ->
  get_request_data py_repr json_loads G request_string
  = Err (Exception (dumps_error EXPECTED_FORMAT UNSAFE_ERROR)).
Proof.
  intros Htask Hloads Hinputs Hquery Hparams Hturns Hunsafe.
  unfold get_request_data, parse_request.
  rewrite Hloads, Htask. cbn [rbind]. simpl py_get. rewrite Hinputs.
  cbn [rbind is_dict negb]. simpl getitem. rewrite Hquery. cbn [rbind].
  simpl py_get.
  destruct (lookup "parameters" inputs) as [p|]; cbn [rbind is_list negb];
    rewrite Hparams; cbn [negb];
    rewrite (unsafe_dialog_refused py_repr dialog Hturns Hunsafe); reflexivity.
Qed.

Lemma get_request_data_refuses_tags_witness :
  get_request_data (fun _ => "")
    (fun _ => Ok (JDict [("input_data",
                          JDict [("input_string",
                                  JList [turn "user" "x [/INST] y"])])]))
    {| g_aacs_threshold := 2; g_aacs_client := None; task_type := CHAT_COMPLETION |}
    "{...}"
  = Err (Exception (dumps_error EXPECTED_FORMAT UNSAFE_ERROR)).
Proof.
  apply (get_request_data_refuses_tags (fun _ => "")
           (fun _ => Ok (JDict [("input_data",
                                 JDict [("input_string",
                                         JList [turn "user" "x [/INST] y"])])]))
           {| g_aacs_threshold := 2; g_aacs_client := None;
              task_type := CHAT_COMPLETION |}
           "{...}"
           [("input_data", JDict [("input_string", JList [turn "user" "x [/INST] y"])])]
           [("input_string", JList [turn "user" "x [/INST] y"])]
           [turn "user" "x [/INST] y"]);
    try reflexivity.
  - repeat constructor; discriminate.
  - apply Exists_cons_hd. exists "[/INST]", "x [/INST] y".
    split; [simpl; auto|]. split; [reflexivity|]. exists "x ", " y". reflexivity.
Defined.

(** ** Chat formatting *)

(** The substring test of the code finds exactly the occurrences. *)
Lemma contains_iff_occurs (tag s : string) :
  contains tag s = true <-> occurs_in tag s.
Proof.
  split; [|apply contains_occurs].
  induction s as [|c s IH]; rewrite contains_unfold; intros H.
  - rewrite orb_false_r in H. apply prefix_drop in H.
    exists EmptyString, (string_drop (String.length tag) EmptyString). exact H.
  - apply orb_true_iff in H as [H|H].
    + apply prefix_drop in H.
      exists EmptyString, (string_drop (String.length tag) (String c s)). exact H.
    + destruct (IH H) as (before & after & ->).
      exists (String c before), after. reflexivity.
Qed.

Lemma is_turn_content (message : json) (rc : string * string) :
  is_turn message rc -> turn_content message = Some (snd rc).
Proof. intros [_ Hc]. unfold turn_content. now rewrite Hc. Qed.

Lemma existsb_concat_false (rows : list (list bool)) :
  Forall (Forall (fun b => b = false)) rows ->
  existsb (fun b => b) (List.concat rows) = false.
Proof.
  induction 1 as [|row rows Hrow _ IH]; [reflexivity|].
  simpl. rewrite existsb_app, IH, orb_false_r.
  induction Hrow as [|b row Hb _ IHrow]; [reflexivity|].
  simpl. now rewrite Hb, IHrow.
Qed.

(** A dialogue of turns free of tags passes the tag check. *)
Lemma tag_checks_pass (dialog : list json) (turns : list (string * string)) :
  Forall2 is_turn dialog turns ->
  forallb (fun rc => tag_free (snd rc)) turns = true ->
  exists checks,
    tag_checks dialog = Ok checks /\ existsb (fun b => b) checks = false.
Proof.
  intros Hturns Hfree.
  assert (Hcontent : Forall (fun m => turn_content m <> None) dialog).
  { clear Hfree. induction Hturns as [|m rc ms rcs Hm _ IH]; constructor; auto.
    rewrite (is_turn_content m rc Hm). discriminate. }
  eexists. split; [apply (tag_checks_turns dialog Hcontent)|].
  apply existsb_concat_false. apply Forall_forall. intros row Hrow.
  apply in_map_iff in Hrow as (tag & <- & Htag).
  apply Forall_forall. intros b Hb. apply in_map_iff in Hb as (m & <- & Hm).
  clear Hcontent. induction Hturns as [|m' rc ms rcs Hm' _ IH]; [contradiction|].
  simpl in Hfree. apply andb_prop in Hfree as [Hrc Hrcs].
  destruct Hm as [<-|Hm]; [|now apply IH].
  unfold tag_found. rewrite (is_turn_content m' rc Hm').
  unfold tag_free in Hrc. rewrite forallb_forall in Hrc.
  specialize (Hrc tag Htag). now apply negb_true_iff in Hrc.
Qed.

(** One step of the extraction pass on a turn. *)
Lemma process_message_turn (n i : nat) (message : json) (rc : string * string)
  (st : dialog_state) :
  is_turn message rc -> dialog_strings st ->
  exists st',
    process_message n i message st = Ok st'
    /\ dialog_strings st'
    /\ last_user_message st'
       = if negb (String.eqb (fst rc) "system" && (i =? 0)%nat)
            && String.eqb (fst rc) "user"
            && (Z.of_nat i =? Z.of_nat n - 1)
         then JStr (snd rc)
         else last_user_message st.
Proof.
  intros [Hrole Hcontent] (Hsys & Hhist & Hpending).
  unfold process_message. rewrite Hrole, Hcontent. cbn [rbind json_is_str].
  destruct (String.eqb (fst rc) "system" && (i =? 0)%nat) eqn:Hfirst; cbn [negb andb].
  - eexists. split; [reflexivity|]. split; [|reflexivity].
    repeat split; simpl; eauto.
  - destruct (String.eqb (fst rc) "user") eqn:Huser; cbn [andb].
    + destruct (Z.of_nat i =? Z.of_nat n - 1); eexists;
        (split; [reflexivity|]); (split; [|reflexivity]);
        repeat split; simpl; eauto.
    + destruct (String.eqb (fst rc) "assistant" && negb (is_none (user_message st)))
        eqn:Hassistant.
      * eexists. split; [reflexivity|]. split; [|reflexivity].
        split; [exact Hsys|]. split; [|now left].
        simpl. apply Forall_app. split; [exact Hhist|].
        constructor; [|constructor].
        destruct Hpending as [Hnone|[u Hu]].
        -- rewrite Hnone in Hassistant. simpl in Hassistant.
           now rewrite andb_false_r in Hassistant.
        -- rewrite Hu. eauto.
      * eexists. split; [reflexivity|]. split; [|reflexivity].
        repeat split; assumption.
Qed.

(** The extraction pass on a dialogue of turns: it never fails, keeps
    strings, and the final message is the content of a last user turn. *)
Lemma process_messages_turns (dialog : list json) (turns : list (string * string)) :
  Forall2 is_turn dialog turns ->
  forall i st,
    dialog_strings st ->
    exists st',
      process_messages (i + List.length dialog) i dialog st = Ok st'
      /\ dialog_strings st'
      /\ last_user_message st'
         = match final_user turns with
           | Some content => JStr content
           | None => last_user_message st
           end.
Proof.
  induction 1 as [|message rc dialog turns Hturn Hturns IH]; intros i st Hst.
  - exists st. auto.
  - destruct (process_message_turn (i + List.length (message :: dialog)) i
                message rc st Hturn Hst) as (st1 & Hstep & Hst1 & Hlast1).
    cbn [process_messages]. rewrite Hstep. cbn [rbind].
    destruct (IH (S i) st1 Hst1) as (st' & Hrest & Hst' & Hlast').
    replace (i + List.length (message :: dialog))%nat
      with (S i + List.length dialog)%nat by (simpl; lia).
    exists st'. split; [exact Hrest|]. split; [exact Hst'|].
    rewrite Hlast'. destruct rc as [role content]. simpl fst in *. simpl snd in *.
    inversion Hturns as [|m' rc' ? ? _ _]; subst.
    + (* the last turn *)
      simpl. rewrite Hlast1.
      replace (Z.of_nat i =? Z.of_nat (i + List.length [message]) - 1) with true
        by (symmetry; apply Z.eqb_eq; simpl; lia).
      rewrite andb_true_r.
      destruct (String.eqb_spec role "user") as [->|Hne].
      * simpl. reflexivity.
      * now rewrite andb_false_r.
    + (* not the last turn *)
      change (final_user ((role, content) :: rc' :: l'))
        with (final_user (rc' :: l')).
      replace (last_user_message st1) with (last_user_message st); [reflexivity|].
      rewrite Hlast1.
      replace (Z.of_nat i =? Z.of_nat (i + List.length (message :: m' :: l)) - 1)
        with false by (symmetry; apply Z.eqb_neq; simpl; lia).
      now rewrite andb_false_r.
Qed.

Lemma process_dialog_turns (dialog : list json) (turns : list (string * string)) :
  Forall2 is_turn dialog turns ->
  forallb (fun rc => tag_free (snd rc)) turns = true ->
  exists sys history,
    process_dialog dialog
    = Ok (JStr sys, history,
          match final_user turns with
          | Some content => JStr content
          | None => JNull
          end)
    /\ Forall (fun p => exists u a, p = (JStr u, JStr a)) history.
Proof.
  intros Hturns Hfree. unfold process_dialog.
  destruct (tag_checks_pass dialog turns Hturns Hfree) as (checks & -> & Hsafe).
  cbn [rbind]. cbv zeta. rewrite Hsafe.
  destruct (process_messages_turns dialog turns Hturns 0
              {| system_prompt := JStr EmptyString;
                 user_assistant_messages := [];
                 user_message := JNull;
                 last_user_message := JNull |})
    as (st & Hrun & ((sys & Hsys) & Hhist & _) & Hlast).
  { split; [now exists EmptyString|]. split; [constructor | now left]. }
  simpl plus in Hrun. rewrite Hrun. cbn [rbind].
  exists sys, (user_assistant_messages st). rewrite Hsys, Hlast. auto.
Qed.

(** The rendering of a history of string pairs never fails. *)
Lemma format_history_strings (py_repr : json -> string)
  (history : list (json * json)) :
  Forall (fun p => exists u a, p = (JStr u, JStr a)) history ->
  forall do_strip texts,
  exists extra,
    format_history py_repr history do_strip texts
    = Ok (match history with [] => do_strip | _ :: _ => true end,
          (texts ++ extra)%list).
Proof.
  induction 1 as [|p history (u & a & ->) _ IH]; intros do_strip texts.
  - exists []. simpl. now rewrite app_nil_r.
  - cbn [format_history].
    assert (Huser : (if do_strip then strip_value (JStr u) else Ok (JStr u))
                    = Ok (JStr (if do_strip then py_strip u else u)))
      by (destruct do_strip; reflexivity).
    rewrite Huser. cbn [rbind strip_value].
    destruct (IH true
                (texts ++ [(format_value py_repr (JStr (if do_strip then py_strip u else u))
                            ++ " [/INST] " ++ format_value py_repr (JStr (py_strip a))
                            ++ " </s><s>[INST] ")%string])%list)
      as (extra & ->).
    eexists. rewrite <- List.app_assoc.
    destruct history; reflexivity.
Qed.



(** X11.  A dialogue of tag-free turns that does not end with a user turn
    (the empty dialogue included) has no final message: the function raises
    [AttributeError] on [None.strip()] when a user/assistant pair was
    extracted, and otherwise returns a prompt that ends with the text
    [None [/INST]]. *)
Theorem chat_without_final_user (py_repr : json -> string) (dialog : list json)
  (turns : list (string * string)) :
  Forall2 is_turn dialog turns ->
  forallb (fun rc => tag_free (snd rc)) turns = true ->
  final_user turns = None ->
  get_processed_input_data_for_chat_completion py_repr dialog
  = Err (AttributeError "'NoneType' object has no attribute 'strip'")
  \/ exists body,
       get_processed_input_data_for_chat_completion py_repr dialog
       = Ok ("<s>[INST] " ++ body ++ "None [/INST]").
Proof.
  intros Hturns Hfree Hfinal.
  unfold get_processed_input_data_for_chat_completion.
  destruct (process_dialog_turns dialog turns Hturns Hfree)
    as (sys & history & -> & Hhist).
  rewrite Hfinal. cbn [rbind]. unfold format_chat_conv.
  set (texts := if negb (json_is_str EmptyString (JStr sys)) then _ else _).
  destruct (format_history_strings py_repr history Hhist false texts) as (extra & ->).
  cbn [rbind].
  destruct history as [|pair history]; [right | left; reflexivity].
  cbn [rbind format_value].
  assert (Hhead : exists head, texts = [("<s>[INST] " ++ head)%string]).
  { unfold texts. destruct (negb (json_is_str EmptyString (JStr sys)));
      eexists; [|instantiate (1 := EmptyString)]; reflexivity. }
  destruct Hhead as (head & ->).
  exists (head ++ py_join EmptyString extra).
  rewrite !join_empty_app, !join_empty_cons. simpl py_join.
  rewrite !append_assoc. reflexivity.
Qed.

Lemma chat_without_final_user_witness :
  get_processed_input_data_for_chat_completion (fun _ => "")
    [turn "user" "hi"; turn "assistant" "hello"]
  = Err (AttributeError "'NoneType' object has no attribute 'strip'")
  \/ exists body,
       get_processed_input_data_for_chat_completion (fun _ => "")
         [turn "user" "hi"; turn "assistant" "hello"]
       = Ok ("<s>[INST] " ++ body ++ "None [/INST]").
Proof.
  apply (chat_without_final_user (fun _ => "")
           [turn "user" "hi"; turn "assistant" "hello"]
           [("user", "hi"); ("assistant", "hello")]);
    try reflexivity.
  repeat constructor.
Defined.

(** ** Chunker *)

Lemma join_nonempty_strings (g : list string) :
  Forall (fun i => i <> EmptyString) g -> py_join EmptyString g = EmptyString ->
  g = [].
Proof.
  intros Hg Hjoin. destruct g as [|i g]; [reflexivity|].
  rewrite join_empty_cons in Hjoin. inversion Hg; subst.
  destruct i; [congruence | discriminate].
Qed.

(** The packing loop on pieces that all fit: [ret] and [buffer] always hold
    whole pieces. *)
Lemma split_by_loop_groups (max_n : Z) (split : list string) :
  Forall (fits max_n) split ->
  Forall (fun i => i <> EmptyString) split ->
  forall gs g,
    Forall (fun g => g <> []) gs ->
    Forall (fun i => i <> EmptyString) g ->
    exists gs' g',
      split_by_loop max_n split (map (py_join EmptyString) gs) (py_join EmptyString g)
      = Ok (map (py_join EmptyString) gs', py_join EmptyString g')
      /\ (List.concat gs' ++ g' = List.concat gs ++ g ++ split)%list
      /\ Forall (fun g => g <> []) gs'
      /\ Forall (fun i => i <> EmptyString) g'.
Proof.
  intros Hfit Hne. revert Hne.
  induction Hfit as [|i split Hi Hfit IH]; intros Hne gs g Hgs Hg.
  - exists gs, g. rewrite app_nil_r. auto.
  - inversion Hne as [|? ? Hine Hne']; subst. cbn [split_by_loop].
    unfold fits in Hi.
    replace (max_n <? len i) with false by (symmetry; apply Z.ltb_ge; exact Hi).
    destruct (Z.leb_spec (len (py_join EmptyString g) + len i) max_n) as [Hroom|Hfull].
    + destruct (IH Hne' gs (g ++ [i])%list Hgs) as (gs' & g' & Hrun & Hcat & Hgs' & Hg').
      { apply Forall_app. split; [exact Hg | now constructor]. }
      rewrite join_empty_app in Hrun. simpl py_join in Hrun.
      exists gs', g'. split; [exact Hrun|]. split; [|now split].
      rewrite Hcat, <- !List.app_assoc. reflexivity.
    + assert (Hgne : g <> []).
      { intros ->. unfold len in Hi, Hfull. simpl in Hfull. lia. }
      destruct (IH Hne' (gs ++ [g])%list [i]) as (gs' & g' & Hrun & Hcat & Hgs' & Hg').
      { apply Forall_app. split; [exact Hgs | now constructor]. }
      { now constructor. }
      rewrite map_app in Hrun. simpl map in Hrun. simpl py_join in Hrun.
      exists gs', g'. split; [exact Hrun|]. split; [|now split].
      rewrite Hcat, concat_app. simpl. rewrite app_nil_r, <- !List.app_assoc.
      reflexivity.
Qed.

(** X12.  When every sentence with its delimiter fits the chunk size,
    [split_by] never cuts a sentence: the chunks are the concatenations of
    consecutive groups of whole pieces, in order, and no chunk is empty. *)
Theorem split_by_keeps_sentences (self : CsChunkingUtils) (input : string) :
  0 < chunking_n self ->
  nonempty (delimiter self) = true ->
  Forall (fits (chunking_n self))
    (delimited_pieces (delimiter self) (split_from (delimiter self) 0 input)) ->
  exists groups,
    split_by self input = Ok (map (py_join EmptyString) groups)
    /\ List.concat groups
       = delimited_pieces (delimiter self) (split_from (delimiter self) 0 input)
    /\ Forall (fun g => g <> []) groups
    /\ Forall (fun chunk => chunk <> EmptyString) (map (py_join EmptyString) groups).
Proof.
  intros Hn Hdelim Hfit.
  assert (Hd : delimiter self <> EmptyString)
    by (destruct (delimiter self); [discriminate | congruence]).
  pose proof (delimited_pieces_nonempty (delimiter self)
                (split_from (delimiter self) 0 input)) as Hne.
  destruct (split_by_loop_groups (chunking_n self) _ Hfit Hne [] [])
    as (gs & g & Hrun & Hcat & Hgs & Hg); [constructor | constructor |].
  simpl in Hrun, Hcat.
  assert (Hchunks : forall groups,
             Forall (fun g => g <> []) groups ->
             Forall (fun g => Forall (fun i => i <> EmptyString) g) groups ->
             Forall (fun chunk => chunk <> EmptyString)
               (map (py_join EmptyString) groups)).
  { intros groups Hnonempty Hstrings. apply Forall_forall. intros chunk Hin.
    apply in_map_iff in Hin as (grp & <- & Hin).
    rewrite Forall_forall in Hnonempty, Hstrings.
    intros Hjoin. apply (Hnonempty grp Hin).
    apply join_nonempty_strings; auto. }
  assert (Hall : Forall (fun i => i <> EmptyString) (List.concat gs ++ g)%list)
    by (rewrite Hcat; exact Hne).
  apply Forall_app in Hall as [Hconcat _].
  assert (Hstrings : Forall (fun g => Forall (fun i => i <> EmptyString) g) gs).
  { apply Forall_forall. intros grp Hin. apply Forall_forall. intros i Hi.
    rewrite Forall_forall in Hconcat. apply Hconcat.
    apply in_concat. eauto. }
  unfold split_by. rewrite (split_total _ _ Hd). cbn [rbind]. rewrite Hrun.
  cbn [rbind].
  destruct (Z.ltb_spec 0 (len (py_join EmptyString g))) as [Hpos|Hzero].
  - exists (gs ++ [g])%list.
    assert (Hgne : g <> []) by (intros ->; unfold len in Hpos; simpl in Hpos; lia).
    split; [now rewrite map_app|]. split.
    + rewrite concat_app. simpl. now rewrite app_nil_r.
    + split.
      * apply Forall_app. split; [exact Hgs | now constructor].
      * apply Hchunks.
        -- apply Forall_app. split; [exact Hgs | now constructor].
        -- apply Forall_app. split; [exact Hstrings | now constructor].
  - apply len_zero in Hzero. apply (join_nonempty_strings g Hg) in Hzero. subst g.
    rewrite app_nil_r in Hcat.
    exists gs. split; [reflexivity|]. split; [exact Hcat|]. split; [exact Hgs|].
    now apply Hchunks.
Qed.

Lemma split_by_keeps_sentences_witness :
  exists groups,
    split_by {| delimiter := "."; chunking_n := 6 |} "ab.cd.efgh.i"
    = Ok (map (py_join EmptyString) groups)
    /\ List.concat groups
       = delimited_pieces "." (split_from "." 0 "ab.cd.efgh.i")
    /\ Forall (fun g => g <> []) groups
    /\ Forall (fun chunk => chunk <> EmptyString) (map (py_join EmptyString) groups).
Proof.
  apply (split_by_keeps_sentences {| delimiter := "."; chunking_n := 6 |}
           "ab.cd.efgh.i"); [simpl; lia | reflexivity |].
  simpl. repeat (constructor; [unfold fits, len; simpl; lia|]). constructor.
Defined.

Lemma length_substring_exact (s : string) (a m : nat) :
  String.length (substring a m s) = Nat.min m (String.length s - a).
Proof.
  revert a m. induction s as [|c s IH]; intros a m.
  - destruct a, m; simpl; lia.
  - destruct a as [|a]; [destruct m as [|m]|]; cbn [substring String.length].
    + reflexivity.
    + rewrite IH. lia.
    + rewrite IH. reflexivity.
Qed.

Lemma range_up_nth (stop step : Z) :
  0 < step ->
  forall (fuel : nat) (i : Z) (k : nat),
    stop - i <= Z.of_nat fuel ->
    nth_error (range_up fuel i stop step) k
    = if i + Z.of_nat k * step <? stop then Some (i + Z.of_nat k * step) else None.
Proof.
  intros Hstep. induction fuel as [|fuel IH]; intros i k Hfuel; cbn [range_up].
  - replace (i + Z.of_nat k * step <? stop) with false by (symmetry; apply Z.ltb_ge; nia).
    now destruct k.
  - destruct (Z.ltb_spec i stop) as [Hlt|Hge].
    + destruct k as [|k]; cbn [nth_error].
      * replace (i + Z.of_nat 0 * step) with i by lia.
        now replace (i <? stop) with true by (symmetry; apply Z.ltb_lt; lia).
      * rewrite IH by lia.
        replace (i + step + Z.of_nat k * step) with (i + Z.of_nat (S k) * step) by lia.
        reflexivity.
    + replace (i + Z.of_nat k * step <? stop) with false by (symmetry; apply Z.ltb_ge; nia).
      now destruct k.
Qed.

(** X13.  With a positive length [n], [chunkstring] returns slices that
    concatenate back to the string; there is a slice number [k] exactly when
    [k * n] is less than the length of the string, and that slice has [n]
    characters, or what is left of the string when that is less.  So no
    slice is empty and all but the last have exactly [n] characters. *)
Theorem chunkstring_slices (s : string) (n : Z) :
  0 < n ->
  exists chunks,
    chunkstring s n = Ok chunks
    /\ py_join EmptyString chunks = s
    /\ (forall k, (k < List.length chunks)%nat <-> Z.of_nat k * n < len s)
    /\ (forall k chunk,
          nth_error chunks k = Some chunk ->
          len chunk = Z.min n (len s - Z.of_nat k * n)).
Proof.
  intros Hn. destruct (chunkstring_spec s n Hn) as (chunks & Hchunks & Hjoin & _).
  exists chunks. split; [exact Hchunks|]. split; [exact Hjoin|].
  unfold chunkstring, py_range in Hchunks.
  replace (n =? 0) with false in Hchunks by (symmetry; apply Z.eqb_neq; lia).
  replace (0 <? n) with true in Hchunks by (symmetry; apply Z.ltb_lt; lia).
  cbn [rbind] in Hchunks. injection Hchunks as <-.
  assert (Hnth : forall k,
             nth_error (range_up (Z.to_nat (len s - 0)) 0 (len s) n) k
             = if Z.of_nat k * n <? len s then Some (Z.of_nat k * n) else None).
  { intros k. rewrite (range_up_nth (len s) n Hn) by (pose proof (len_nonneg s); lia).
    reflexivity. }
  split.
  - intros k. rewrite length_map, <- nth_error_Some, Hnth.
    destruct (Z.ltb_spec (Z.of_nat k * n) (len s)); split; intros H0;
      try discriminate; try lia; congruence.
  - intros k chunk. rewrite nth_error_map, Hnth.
    destruct (Z.ltb_spec (Z.of_nat k * n) (len s)) as [Hlt|Hge]; [|discriminate].
    cbn [option_map]. intros [= <-].
    assert (Hj : 0 <= Z.of_nat k * n) by nia.
    set (j := Z.of_nat k * n) in *. clearbody j.
    unfold py_slice, slice_bound. change (0 + j) with j.
    replace (j <? 0) with false by (symmetry; apply Z.ltb_ge; lia).
    replace (n + j <? 0) with false by (symmetry; apply Z.ltb_ge; lia).
    unfold len in *. rewrite length_substring_exact. lia.
Qed.

Lemma chunkstring_slices_witness :
  exists chunks,
    chunkstring "abcdefgh" 3 = Ok chunks
    /\ py_join EmptyString chunks = "abcdefgh"
    /\ (forall k, (k < List.length chunks)%nat <-> Z.of_nat k * 3 < len "abcdefgh")
    /\ (forall k chunk,
          nth_error chunks k = Some chunk ->
          len chunk = Z.min 3 (len "abcdefgh" - Z.of_nat k * 3)).
Proof. apply (chunkstring_slices "abcdefgh" 3). lia. Defined.

(** X14.  [chunkstring] with the length 0 raises the [ValueError] of
    [range], and with a negative length it returns no slice at all: the
    string is dropped. *)
Theorem chunkstring_without_positive_length (s : string) (n : Z) :
  n <= 0 ->
  chunkstring s n
  = if n =? 0 then Err (ValueError "range() arg 3 must not be zero") else Ok [].
Proof.
  intros Hn. unfold chunkstring, py_range.
  destruct (Z.eqb_spec n 0) as [Hzero|Hneg]; [reflexivity|].
  replace (0 <? n) with false by (symmetry; apply Z.ltb_ge; lia).
  replace (Z.to_nat (0 - len s)) with O by (pose proof (len_nonneg s); lia).
  reflexivity.
Qed.

Lemma chunkstring_without_positive_length_witness :
  chunkstring "abc" (-2) = Ok [].
Proof. apply (chunkstring_without_positive_length "abc" (-2)). lia. Defined.

(** X15.  With the default settings, [split_by] returns no chunk exactly
    for the texts made of full stops only (the empty text included). *)
Theorem split_by_empty_iff (text : string) :
  split_by default_chunking_utils text = Ok [] <-> only_delimiters text = true.
Proof.
  split; [|apply split_by_no_chunk].
  intros Hsplit. destruct (only_delimiters text) eqn:Hdots; [reflexivity|].
  destruct (split_by_some_chunk text Hdots) as (chunk & chunks & Hsome).
  congruence.
Qed.

(** ** The scoring entry point *)

Lemma input_gate_passes (G : Globals) (data : string) (w : world) (log' : call_log) :
  input_passes G data (aacs_calls w) log' ->
  exists severity,
    of_aacs (get_safe_input G (VStr data)) w
    = (Returned (VStr data, severity),
       {| aacs_calls := log'; engine_calls := engine_calls w |})
    /\ (g_aacs_threshold G <? severity) = false.
Proof.
  unfold input_passes, of_aacs, get_safe_input.
  destruct (g_aacs_client G) as [client|] eqn:Hclient.
  - intros (severity & Hrate & Hle). exists severity.
    assert (Hthr : (g_aacs_threshold G <? severity) = false)
      by (apply Z.ltb_ge; exact Hle).
    split; [|exact Hthr].
    cbn [iterate]. run_m. rewrite Hrate, Hthr. reflexivity.
  - intros [-> Hthr]. exists 0. split; [reflexivity|].
    apply Z.ltb_ge. exact Hthr.
Qed.

Lemma of_aacs_engine_calls {A : Type} (m : M A) (w w' : world) (o : outcome A) :
  of_aacs m w = (o, w') -> engine_calls w' = engine_calls w.
Proof.
  unfold of_aacs. destruct (m (aacs_calls w)) as [[a|e] log']; intros [= _ <-];
    reflexivity.
Qed.

Lemma get_safe_input_keeps_body (G : Globals) (data : string) (log log' : call_log)
  (body : value) (severity : Z) :
  get_safe_input G (VStr data) log = (Ok (body, severity), log') ->
  (g_aacs_threshold G <? severity) = false ->
  body = VStr data.
Proof.
  unfold get_safe_input. destruct (g_aacs_client G) as [client|].
  - cbn [iterate]. run_m.
    destruct (analyze_text G data log) as [[rating|e] log1]; [|discriminate].
    destruct (g_aacs_threshold G <? rating) eqn:Hthr.
    + intros [= <- <- <-] Hle. congruence.
    + intros [= <- <- <-] _. reflexivity.
  - run_m. intros [= <- <- <-] _. reflexivity.
Qed.

Lemma get_request_data_params_dict (py_repr : json -> string)
  (json_loads : string -> result json) (G : Globals) (request_string : string)
  (query params : json) :
  get_request_data py_repr json_loads G request_string = Ok (query, params) ->
  exists entries, params = JDict entries.
Proof.
  unfold get_request_data, parse_request.
  destruct (json_loads request_string) as [data|e]; cbn [rbind]; [|discriminate].
  destruct (py_get data "input_data" JNull) as [inputs|e]; cbn [rbind];
    [|discriminate].
  destruct (negb (is_dict inputs)); [discriminate|].
  destruct (getitem inputs "input_string") as [input_data|e]; cbn [rbind];
    [|discriminate].
  destruct (py_get inputs "parameters" (JDict [])) as [p|e]; cbn [rbind];
    [|discriminate].
  destruct (negb (is_list input_data)); [discriminate|].
  destruct (is_dict p) eqn:Hp; cbn [negb]; [|discriminate].
  assert (Hdict : exists entries, p = JDict entries)
    by (destruct p; try discriminate; eauto).
  destruct (String.eqb (task_type G) CHAT_COMPLETION).
  - destruct input_data as [| | | | |dialog|]; try (intros [= <- <-]; exact Hdict).
    destruct (get_processed_input_data_for_chat_completion py_repr dialog);
      cbn [rbind]; [|discriminate].
    intros [= <- <-]. exact Hdict.
  - intros [= <- <-]. exact Hdict.
Qed.

Lemma get_request_data_error (py_repr : json -> string)
  (json_loads : string -> result json) (G : Globals) (request_string : string)
  (e : exn) :
  get_request_data py_repr json_loads G request_string = Err e ->
  exists reason, e = Exception (dumps_error EXPECTED_FORMAT reason).
Proof.
  unfold get_request_data.
  destruct (parse_request py_repr json_loads G request_string) as [r|cause];
    [discriminate|].
  intros [= <-]. eauto.
Qed.

Lemma dict_contains_filter_out (k : string) (d : list (string * json)) :
  dict_contains k (filter (fun kv => negb (String.eqb k (fst kv))) d) = false.
Proof.
  unfold dict_contains.
  induction d as [|[k' v'] d IH]; [reflexivity|]. cbn [filter fst].
  destruct (String.eqb k k') eqn:Hk; cbn [negb]; [exact IH|].
  cbn [lookup]. rewrite Hk. exact IH.
Qed.

Lemma dict_contains_update (k : string) (other d : list (string * json)) :
  dict_contains k (dict_update d other)
  = dict_contains k d || dict_contains k other.
Proof.
  unfold dict_update. revert d.
  induction other as [|[k' v'] other IH]; intros d; cbn [fold_left fst snd].
  - unfold dict_contains at 3. cbn [lookup]. now rewrite orb_false_r.
  - rewrite IH. unfold dict_contains at 1 3 4. rewrite lookup_dict_set.
    cbn [lookup]. destruct (String.eqb k k') eqn:Hk.
    + now rewrite orb_true_r.
    + reflexivity.
Qed.

(** [get_generator_params] raises nothing, and what it returns has no
    [max_gen_len] entry. *)
Lemma generator_params_returned (entries : list (string * json)) :
  exists params,
    get_generator_params entries = Ok params
    /\ dict_contains "max_gen_len" params = false.
Proof.
  unfold get_generator_params.
  destruct (dict_contains "max_gen_len" entries) eqn:Hin.
  - cbn [getitem]. unfold dict_contains in Hin.
    destruct (lookup "max_gen_len" entries) as [v|] eqn:Hv; [|discriminate].
    cbn [rbind]. unfold dict_del.
    assert (Hkept : dict_contains "max_gen_len"
                      (dict_set "max_new_tokens" v entries) = true).
    { unfold dict_contains. rewrite lookup_dict_set.
      replace (String.eqb "max_gen_len" "max_new_tokens") with false
        by reflexivity.
      now rewrite Hv. }
    rewrite Hkept. cbn [rbind]. eexists. split; [reflexivity|].
    rewrite dict_contains_update, dict_contains_filter_out. reflexivity.
  - cbn [rbind]. eexists. split; [reflexivity|].
    rewrite dict_contains_update, Hin. reflexivity.
Qed.

Lemma outputs_first (r : string) (responses : list string) :
  outputs_getitem "0" (enumerate_outputs (r :: responses)) = Ok r.
Proof. reflexivity. Qed.


(** X16.  When the service rates the request body above the threshold,
    [run] answers with the empty dictionary: the body is not parsed and the
    engine is not called. *)
Theorem run_refuses_unsafe_input (py_repr : json -> string)
  (json_loads : string -> result json) (g_fmscorer : FMScore) (G : Globals)
  (client : ContentSafetyClient) (data : string) (w : world)
  (severity : Z) (log' : call_log) :
  g_aacs_client G = Some client ->
  analyze_text G data (aacs_calls w) = (Ok severity, log') ->
  g_aacs_threshold G < severity ->
  run py_repr json_loads g_fmscorer G data w
  = (VDict [], {| aacs_calls := log'; engine_calls := engine_calls w |}).
Proof.
  intros Hclient Hrate Hthr.
  unfold run, run_body, run_bind, of_aacs, get_safe_input. rewrite Hclient.
  cbn [iterate]. run_m. rewrite Hrate.
  replace (g_aacs_threshold G <? severity) with true
    by (symmetry; apply Z.ltb_lt; exact Hthr).
  replace (g_aacs_threshold G <? severity) with true
    by (symmetry; apply Z.ltb_lt; exact Hthr).
  reflexivity.
Qed.

Lemma run_refuses_unsafe_input_witness :
  run (fun _ => "") (fun _ => Err (ValueError "not parsed")) echo_engine
    moderated "abcd" {| aacs_calls := []; engine_calls := [] |}
  = (VDict [], {| aacs_calls := ["abcd."]; engine_calls := [] |}).
Proof.
  apply (run_refuses_unsafe_input (fun _ => "")
           (fun _ => Err (ValueError "not parsed")) echo_engine moderated
           length_rating_client "abcd" {| aacs_calls := []; engine_calls := [] |}
           5 ["abcd."]); [reflexivity | reflexivity | simpl; lia].
Defined.

(** X17.  A request body that passes the input gate and that
    [get_request_data] rejects is answered with the error text of [run]
    whose [exception] field is itself the encoded error of
    [get_request_data]; the engine is not called. *)
Theorem run_reports_rejected_request (py_repr : json -> string)
  (json_loads : string -> result json) (g_fmscorer : FMScore) (G : Globals)
  (data : string) (w : world) (log' : call_log) (e : exn) :
  input_passes G data (aacs_calls w) log' ->
  get_request_data py_repr json_loads G data = Err e ->
  exists reason,
    e = Exception (dumps_error EXPECTED_FORMAT reason)
    /\ run py_repr json_loads g_fmscorer G data w
       = (VStr (dumps_error "Error in processing request"
                  (dumps_error EXPECTED_FORMAT reason)),
          {| aacs_calls := log'; engine_calls := engine_calls w |}).
Proof.
  intros Hpass Hreq.
  destruct (get_request_data_error _ _ _ _ _ Hreq) as (reason & ->).
  exists reason. split; [reflexivity|].
  destruct (input_gate_passes _ _ _ _ Hpass) as (severity & Hgate & Hthr).
  unfold run, run_body, run_bind. rewrite Hgate, Hthr.
  unfold of_result. rewrite Hreq. reflexivity.
Qed.

Lemma run_reports_rejected_request_witness :
  exists reason,
    Exception (dumps_error EXPECTED_FORMAT "Invalid input data")
    = Exception (dumps_error EXPECTED_FORMAT reason)
    /\ run (fun _ => "") (fun _ => Ok (JDict [])) echo_engine unmoderated "{}"
         {| aacs_calls := []; engine_calls := [] |}
       = (VStr (dumps_error "Error in processing request"
                  (dumps_error EXPECTED_FORMAT reason)),
          {| aacs_calls := []; engine_calls := [] |}).
Proof.
  apply (run_reports_rejected_request (fun _ => "") (fun _ => Ok (JDict []))
           echo_engine unmoderated "{}" {| aacs_calls := []; engine_calls := [] |}
           [] (Exception (dumps_error EXPECTED_FORMAT "Invalid input data"))).
  - split; [reflexivity | simpl; lia].
  - reflexivity.
Defined.

(** X18.  [run] calls the engine at most once, and only for a body that
    [get_request_data] accepts: the call carries the query (alone in a list
    for chat-completion, as the list of prompts otherwise) and the
    parameters returned by [get_generator_params], which have no
    [max_gen_len] entry. *)
Theorem run_engine_called_once (py_repr : json -> string)
  (json_loads : string -> result json) (g_fmscorer : FMScore) (G : Globals)
  (data : string) (w : world) :
  let w' := snd (run py_repr json_loads g_fmscorer G data w) in
  engine_calls w' = engine_calls w
  \/ exists query entries params prompts,
       get_request_data py_repr json_loads G data = Ok (query, JDict entries)
       /\ get_generator_params entries = Ok params
       /\ dict_contains "max_gen_len" params = false
       /\ (if String.eqb (task_type G) CHAT_COMPLETION then prompts = [query]
           else query = JList prompts)
       /\ engine_calls w' = (engine_calls w ++ [(prompts, params)])%list.
Proof.
  cbv zeta. unfold run, run_body, run_bind.
  destruct (of_aacs (get_safe_input G (VStr data)) w) as [[[body severity]|r] w1]
    eqn:Hgate; pose proof (of_aacs_engine_calls _ _ _ _ Hgate) as Hw1;
    cbv beta iota; [|left; exact Hw1].
  destruct (g_aacs_threshold G <? severity) eqn:Hthr; [left; exact Hw1|].
  assert (Hbody : body = VStr data).
  { unfold of_aacs in Hgate.
    destruct (get_safe_input G (VStr data) (aacs_calls w)) as [[[b s]|e] log1]
      eqn:Hinput; [|discriminate].
    injection Hgate as -> -> _.
    exact (get_safe_input_keeps_body _ _ _ _ _ _ Hinput Hthr). }
  subst body.
  destruct (get_request_data py_repr json_loads G data) as [[query params]|e]
    eqn:Hreq; cbn [of_result]; [|left; exact Hw1].
  destruct (get_request_data_params_dict _ _ _ _ _ _ Hreq) as (entries & ->).
  destruct (generator_params_returned entries) as (params & Hparams & Hclean).
  rewrite Hparams. cbn [of_result].
  destruct (String.eqb (task_type G) CHAT_COMPLETION) eqn:Htask.
  - right. exists query, entries, params, [query].
    split; [reflexivity|]. split; [exact Hparams|]. split; [exact Hclean|].
    split; [reflexivity|].
    unfold engine_run. cbv zeta.
    destruct (g_fmscorer (engine_calls w1) [query] params) as [responses|e];
      cbv beta iota; [|cbn [snd engine_calls]; now rewrite Hw1].
    destruct (outputs_getitem "0" (enumerate_outputs responses)) as [output|e];
      cbn [of_result]; [|cbn [snd engine_calls]; now rewrite Hw1].
    match goal with
    | |- context [of_aacs ?m ?w0] =>
        destruct (of_aacs m w0) as [[answer|r] w2] eqn:Hout;
        apply of_aacs_engine_calls in Hout
    end; cbn [snd engine_calls] in *; now rewrite Hout, Hw1.
  - unfold py_assert.
    destruct (String.eqb (task_type G) TEXT_GENERATION && is_list query) eqn:Htest;
      cbv beta iota; [|left; exact Hw1].
    apply andb_prop in Htest as [_ Hlist].
    destruct query as [| | | | |prompts|]; try discriminate.
    right. exists (JList prompts), entries, params, prompts.
    split; [reflexivity|]. split; [exact Hparams|]. split; [exact Hclean|].
    split; [reflexivity|].
    unfold engine_run. cbv zeta.
    destruct (g_fmscorer (engine_calls w1) prompts params) as [responses|e];
      cbv beta iota; [|cbn [snd engine_calls]; now rewrite Hw1].
    match goal with
    | |- context [of_aacs ?m ?w0] =>
        destruct (of_aacs m w0) as [[answer|r] w2] eqn:Hout;
        apply of_aacs_engine_calls in Hout
    end; cbn [snd engine_calls] in *; now rewrite Hout, Hw1.
Qed.




(** X20.  Chat completion without a moderation client: an accepted request
    is answered with a dictionary holding the first response of the engine
    under [output]; when the engine returns no response the answer is the
    error text of [run] with the quoted key ['0'].  The engine is called
    once, with the prompt alone in a list. *)
Theorem run_chat_completion_output (py_repr : json -> string)
  (json_loads : string -> result json) (g_fmscorer : FMScore) (G : Globals)
  (data : string) (w : world) (query : json)
  (entries params : list (string * json)) (responses : list string) :
  g_aacs_client G = None ->
  0 <= g_aacs_threshold G ->
  task_type G = CHAT_COMPLETION ->
  get_request_data py_repr json_loads G data = Ok (query, JDict entries) ->
  get_generator_params entries = Ok params ->
  g_fmscorer (engine_calls w) [query] params = Ok responses ->
  run py_repr json_loads g_fmscorer G data w
  = (match responses with
     | output :: _ => VDict [(KStr "output", VStr output)]
     | [] => VStr (dumps_error "Error in processing request"
                     (apostrophe ++ "0" ++ apostrophe))
     end,
     {| aacs_calls := aacs_calls w;
        engine_calls := (engine_calls w ++ [([query], params)])%list |}).
Proof.
  intros Hclient Hthr Htask Hreq Hparams Hengine.
  assert (Hpass : input_passes G data (aacs_calls w) (aacs_calls w))
    by (unfold input_passes; rewrite Hclient; split; [reflexivity | exact Hthr]).
  destruct (input_gate_passes _ _ _ _ Hpass) as (severity & Hgate & Hlow).
  unfold run, run_body, run_bind. rewrite Hgate, Hlow, Hreq. cbn [of_result].
  rewrite Hparams. cbn [of_result]. rewrite Htask.
  replace (String.eqb CHAT_COMPLETION CHAT_COMPLETION) with true by reflexivity.
  unfold engine_run. cbv zeta. cbn [engine_calls aacs_calls]. rewrite Hengine.
  destruct responses as [|output responses].
  - reflexivity.
  - rewrite outputs_first. cbn [of_result].
    unfold of_aacs, get_safe_response. rewrite Hclient. run_m. reflexivity.
Qed.

Lemma run_chat_completion_output_witness :
  run (fun _ => "")
    (fun _ => Ok (JDict [("input_data",
                          JDict [("input_string",
                                  JList [JDict [("role", JStr "user");
                                                ("content", JStr "Hi")]])])]))
    echo_engine
    {| g_aacs_threshold := 2; g_aacs_client := None; task_type := CHAT_COMPLETION |}
    "{...}" {| aacs_calls := []; engine_calls := [] |}
  = (VDict [(KStr "output", VStr "ok")],
     {| aacs_calls := [];
        engine_calls := [([JStr "<s>[INST] Hi [/INST]"], [])] |}).
Proof.
  apply (run_chat_completion_output (fun _ => "")
           (fun _ => Ok (JDict [("input_data",
                                 JDict [("input_string",
                                         JList [JDict [("role", JStr "user");
                                                       ("content", JStr "Hi")]])])]))
           echo_engine
           {| g_aacs_threshold := 2; g_aacs_client := None;
              task_type := CHAT_COMPLETION |}
           "{...}" {| aacs_calls := []; engine_calls := [] |}
           (JStr "<s>[INST] Hi [/INST]") [] [] ["ok"]);
    try reflexivity.
  simpl. lia.
Defined.

(** X21.  Chat completion with a moderation client: when the request body
    passes the input gate and is accepted, the first response of the engine
    is rated by the service after the body, and it is answered under
    [output] as it is when its rating is within the threshold, and as the
    empty string otherwise. *)
Theorem run_chat_completion_moderates_output (py_repr : json -> string)
  (json_loads : string -> result json) (g_fmscorer : FMScore) (G : Globals)
  (client : ContentSafetyClient) (data : string) (w : world) (query : json)
  (entries params : list (string * json)) (output : string)
  (responses : list string) (log1 log2 : call_log) (rating : Z) :
  g_aacs_client G = Some client ->
  input_passes G data (aacs_calls w) log1 ->
  task_type G = CHAT_COMPLETION ->
  get_request_data py_repr json_loads G data = Ok (query, JDict entries) ->
  get_generator_params entries = Ok params ->
  g_fmscorer (engine_calls w) [query] params = Ok (output :: responses) ->
  analyze_text G output log1 = (Ok rating, log2) ->
  run py_repr json_loads g_fmscorer G data w
  = (VDict [(KStr "output",
             VStr (if g_aacs_threshold G <? rating then EmptyString else output))],
     {| aacs_calls := log2;
        engine_calls := (engine_calls w ++ [([query], params)])%list |}).
Proof.
  intros Hclient Hpass Htask Hreq Hparams Hengine Hrate.
  destruct (input_gate_passes _ _ _ _ Hpass) as (severity & Hgate & Hlow).
  unfold run, run_body, run_bind. rewrite Hgate, Hlow, Hreq. cbn [of_result].
  rewrite Hparams. cbn [of_result]. rewrite Htask.
  replace (String.eqb CHAT_COMPLETION CHAT_COMPLETION) with true by reflexivity.
  unfold engine_run. cbv zeta. cbn [engine_calls aacs_calls]. rewrite Hengine.
  rewrite outputs_first. cbn [of_result].
  unfold of_aacs, get_safe_response. rewrite Hclient.
  cbn [_get_jsonable_obj iterate iterate_entries aacs_calls engine_calls].
  run_m. rewrite Hrate.
  destruct (g_aacs_threshold G <? rating); reflexivity.
Qed.

Lemma run_chat_completion_moderates_output_witness :
  run (fun _ => "")
    (fun _ => Ok (JDict [("input_data",
                          JDict [("input_string",
                                  JList [JDict [("role", JStr "user");
                                                ("content", JStr "Hi")]])])]))
    echo_engine
    {| g_aacs_threshold := 2; g_aacs_client := Some length_rating_client;
       task_type := CHAT_COMPLETION |}
    "a" {| aacs_calls := []; engine_calls := [] |}
  = (VDict [(KStr "output", VStr EmptyString)],
     {| aacs_calls := ["a."; "ok."];
        engine_calls := [([JStr "<s>[INST] Hi [/INST]"], [])] |}).
Proof.
  apply (run_chat_completion_moderates_output (fun _ => "")
           (fun _ => Ok (JDict [("input_data",
                                 JDict [("input_string",
                                         JList [JDict [("role", JStr "user");
                                                       ("content", JStr "Hi")]])])]))
           echo_engine
           {| g_aacs_threshold := 2; g_aacs_client := Some length_rating_client;
              task_type := CHAT_COMPLETION |}
           length_rating_client "a" {| aacs_calls := []; engine_calls := [] |}
           (JStr "<s>[INST] Hi [/INST]") [] [] "ok" [] ["a."] ["a."; "ok."] 3);
    try reflexivity.
  exists 2. split; [reflexivity | simpl; lia].
Defined.

(** X22.  With one of the two supported task types, the assertion of [run]
    on the query never fails. *)
Theorem run_assertion_holds (py_repr : json -> string)
  (json_loads : string -> result json) (g_fmscorer : FMScore) (G : Globals)
  (data msg : string) (w : world) :
  task_type G = CHAT_COMPLETION \/ task_type G = TEXT_GENERATION ->
  fst (run_body py_repr json_loads g_fmscorer G data w) <> Failed (AssertionError msg).
Proof.
  intros Htask. unfold run_body, run_bind.
  assert (Haacs : forall (m : M value) w0, fst (of_aacs m w0) <> Failed (AssertionError msg)).
  { intros m w0. unfold of_aacs.
    destruct (m (aacs_calls w0)) as [[a|e] log']; discriminate. }
  destruct (of_aacs (get_safe_input G (VStr data)) w) as [[[body severity]|r] w1]
    eqn:Hgate; cbv beta iota.
  2:{ unfold of_aacs in Hgate.
      destruct (get_safe_input G (VStr data) (aacs_calls w)) as [[a|e] log'];
        [discriminate|].
      injection Hgate as <- _. discriminate. }
  destruct (g_aacs_threshold G <? severity) eqn:Hthr; [discriminate|].
  assert (Hbody : body = VStr data).
  { unfold of_aacs in Hgate.
    destruct (get_safe_input G (VStr data) (aacs_calls w)) as [[[b s]|e] log1]
      eqn:Hinput; [|discriminate].
    injection Hgate as -> -> _.
    exact (get_safe_input_keeps_body _ _ _ _ _ _ Hinput Hthr). }
  subst body.
  destruct (get_request_data py_repr json_loads G data) as [[query params]|e]
    eqn:Hreq; cbn [of_result]; [|discriminate].
  destruct (get_request_data_params_dict _ _ _ _ _ _ Hreq) as (entries & ->).
  destruct (generator_params_returned entries) as (params & Hparams & _).
  rewrite Hparams. cbn [of_result].
  destruct Htask as [Htask|Htask].
  - rewrite Htask.
    replace (String.eqb CHAT_COMPLETION CHAT_COMPLETION) with true by reflexivity.
    unfold engine_run. cbv zeta.
    destruct (g_fmscorer (engine_calls w1) [query] params) as [responses|e];
      cbv beta iota; [|discriminate].
    destruct (outputs_getitem "0" (enumerate_outputs responses)) as [output|e];
      cbn [of_result]; [|discriminate].
    apply Haacs.
  - assert (Hlist : exists prompts, query = JList prompts).
    { assert (Hchat : String.eqb (task_type G) CHAT_COMPLETION = false)
        by (rewrite Htask; reflexivity).
      unfold get_request_data, parse_request in Hreq. rewrite Hchat in Hreq.
      destruct (json_loads data) as [body|e]; cbn [rbind] in Hreq; [|discriminate].
      destruct (py_get body "input_data" JNull) as [inputs|e]; cbn [rbind] in Hreq;
        [|discriminate].
      destruct (negb (is_dict inputs)); [discriminate|].
      destruct (getitem inputs "input_string") as [input_data|e];
        cbn [rbind] in Hreq; [|discriminate].
      destruct (py_get inputs "parameters" (JDict [])) as [p|e];
        cbn [rbind] in Hreq; [|discriminate].
      destruct input_data as [| | | | |items|]; cbn [is_list negb] in Hreq;
        try discriminate.
      destruct (negb (is_dict p)); [discriminate|].
      injection Hreq as <- _. eauto. }
    destruct Hlist as (prompts & ->). rewrite Htask.
    replace (String.eqb TEXT_GENERATION CHAT_COMPLETION) with false by reflexivity.
    replace (String.eqb TEXT_GENERATION TEXT_GENERATION) with true by reflexivity.
    cbn [is_list andb py_assert]. unfold engine_run. cbv zeta.
    destruct (g_fmscorer (engine_calls w1) prompts params) as [responses|e];
      cbv beta iota; [|discriminate].
    apply Haacs.
Qed.

Lemma run_assertion_holds_witness :
  fst (run_body (fun _ => "")
         (fun _ => Ok (JDict [("input_data",
                               JDict [("input_string", JList [JStr "a"])])]))
         echo_engine unmoderated "{...}" {| aacs_calls := []; engine_calls := [] |})
  <> Failed (AssertionError "query should be a list for text-generation").
Proof.
  apply (run_assertion_holds (fun _ => "")
           (fun _ => Ok (JDict [("input_data",
                                 JDict [("input_string", JList [JStr "a"])])]))
           echo_engine unmoderated "{...}"
           "query should be a list for text-generation"
           {| aacs_calls := []; engine_calls := [] |}).
  right. reflexivity.
Defined.
